(** * Preventify: live transcription relay, transcript hooks and summariser

    A shallow embedding of the parts of the application that carry its
    logic:

    - [mobile/src/hooks/useTranscription.ts]: the transcript hook
      ([handleTranscriptMessage]) and the summaries hook
      ([generateSummary] and the interval callback of [useSummaries]);
    - [mobile/src/services/DeepgramService.ts]: [handleDeepgramMessage]
      and [stopTranscription];
    - the API server: [enforceSentenceLimit], the [/transcribe-file]
      message handler and the [/ws/deepgram] proxy.

    JavaScript strings are lists of code units; the development keeps to
    code units below 256, so a code unit is an [ascii]. *)

From stdpp Require Import base strings gmap.
From Stdlib Require Import ZArith QArith List Ascii String Bool Lia.
From Stdlib Require Import DecimalString.
Import ListNotations.

Close Scope Q_scope.
Local Open Scope list_scope.
Local Open Scope bool_scope.

(** ** JavaScript strings *)

Module JS.

Definition jsstring := list ascii.

(** A string literal, as a list of code units. *)
Definition lit (s : string) : jsstring := list_ascii_of_string s.

Definition jsstring_eqb (a b : jsstring) : bool :=
  if list_eq_dec ascii_dec a b then true else false.

(** [!!s]: a string is truthy when it is not empty. *)
Definition truthy (s : jsstring) : bool :=
  match s with
  | [] => false
  | _ :: _ => true
  end.

(** A value that may be [undefined]: truthy when present and not empty. *)
Definition truthy_opt (v : option jsstring) : bool :=
  match v with
  | Some s => truthy s
  | None => false
  end.

(** [a || b] on values that may be [undefined]. *)
Definition or_else (a b : option jsstring) : option jsstring :=
  if truthy_opt a then a else b.

(** LineTerminator code units below 256: LF and CR. *)
Definition is_line_terminator (c : ascii) : bool :=
  let n := nat_of_ascii c in
  Nat.eqb n 10 || Nat.eqb n 13.

(** WhiteSpace and LineTerminator code units below 256: TAB, LF, VT, FF,
    CR, SP and NBSP.  [String.prototype.trim] and the regular expression
    class [\s] use the same set. *)
Definition is_space (c : ascii) : bool :=
  let n := nat_of_ascii c in
  (Nat.leb 9 n && Nat.leb n 13) || Nat.eqb n 32 || Nat.eqb n 160.

Fixpoint trimStart (s : jsstring) : jsstring :=
  match s with
  | [] => []
  | c :: rest => if is_space c then trimStart rest else s
  end.

Definition trimEnd (s : jsstring) : jsstring := rev (trimStart (rev s)).

(** [s.trim()] *)
Definition trim (s : jsstring) : jsstring := trimEnd (trimStart s).

(** [s.startsWith(p)] *)
Fixpoint startsWith (p s : jsstring) : bool :=
  match p, s with
  | [], _ => true
  | _ :: _, [] => false
  | a :: p', b :: s' => if ascii_dec a b then startsWith p' s' else false
  end.

(** [s.split(sep)[0]] for a separator that is not empty: the text before
    the first occurrence of [sep], the whole of [s] when there is none. *)
Fixpoint split_head (sep s : jsstring) : jsstring :=
  match s with
  | [] => []
  | c :: rest => if startsWith sep s then [] else c :: split_head sep rest
  end.

(** What follows the first occurrence of [sep], if there is one. *)
Fixpoint after_first (sep s : jsstring) : option jsstring :=
  match s with
  | [] => if startsWith sep [] then Some [] else None
  | c :: rest =>
      if startsWith sep s then Some (skipn (List.length sep) s)
      else after_first sep rest
  end.

(** [parts.join(sep)] *)
Fixpoint join (sep : jsstring) (parts : list jsstring) : jsstring :=
  match parts with
  | [] => []
  | [p] => p
  | p :: rest => p ++ sep ++ join sep rest
  end.

(** [arr.slice(0, n)] for an integer [n]: a negative end counts from the
    end of the array. *)
Definition slice0 {A : Type} (arr : list A) (n : Z) : list A :=
  if (n <? 0)%Z
  then firstn (Z.to_nat (Z.max (Z.of_nat (List.length arr) + n) 0)) arr
  else firstn (Z.to_nat n) arr.

End JS.

Import JS.

(** ** The transcript hook ([useTranscription]) *)

Module Transcription.

Record TranscriptMessage : Type := mkTranscriptMessage {
  transcript : jsstring;
  isFinal : bool
}.

(** The marker the hook splits on, [' [interim]']. *)
Definition interimMarker : jsstring := Eval cbv in lit " [interim]".

(** What the hook writes between the base transcript and an interim
    text, [' [interim] ']. *)
Definition interimInfix : jsstring := Eval cbv in lit " [interim] ".

(** The state update [handleTranscriptMessage] passes to [setTranscript],
    applied to the previous transcript. *)
Definition handleTranscriptMessage (message : TranscriptMessage)
    (prev : jsstring) : jsstring :=
  if isFinal message then
    if truthy prev then prev ++ lit " " ++ transcript message
    else transcript message
  else
    let baseTranscript := split_head interimMarker prev in
    baseTranscript ++ interimInfix ++ transcript message.

Definition clearTranscript (prev : jsstring) : jsstring := [].

(** The messages of a stream, handled in order. *)
Definition handleAll (messages : list TranscriptMessage)
    (prev : jsstring) : jsstring :=
  fold_left (fun t m => handleTranscriptMessage m t) messages prev.

Definition interim (text : jsstring) : TranscriptMessage :=
  {| transcript := text; isFinal := false |}.

Definition final (text : jsstring) : TranscriptMessage :=
  {| transcript := text; isFinal := true |}.

(** The hook keeps one string.  Its committed part is what the interim
    branch calls [baseTranscript]: the text before the first marker. *)
Definition committed (t : jsstring) : jsstring :=
  split_head interimMarker t.

(** The pending interim text: what is shown after the first marker and
    the space that follows it; empty when there is no marker. *)
Definition pending (t : jsstring) : jsstring :=
  match after_first interimMarker t with
  | Some (c :: rest) => if ascii_dec c " " then rest else c :: rest
  | Some [] => []
  | None => []
  end.

(** The committed transcript joined with a final text, as the final
    branch joins them. *)
Definition joined (prior text : jsstring) : jsstring :=
  if truthy prior then prior ++ lit " " ++ text else text.

(** The marker after its leading space. *)
Definition markerTail : jsstring := Eval cbv in lit "[interim]".

End Transcription.

Import Transcription.

(** ** The summaries hook ([useSummaries]) *)

Module Summaries.

Record SummaryItem : Type := mkSummaryItem {
  id : jsstring;
  summary : jsstring;
  timestamp : jsstring
}.

(** What [SummaryService.generateSummary] resolves to. *)
Record SummaryResponse : Type := mkSummaryResponse {
  response_summary : jsstring;
  response_timestamp : jsstring
}.

(** How the awaited call to the summary service ends: it resolves to a
    response, or it throws an error whose [message] may be missing. *)
Inductive outcome : Type :=
| Resolved (response : SummaryResponse)
| Rejected (message : option jsstring).

(** A request sent to the summary service. *)
Inductive request : Type :=
| Summarize (text : jsstring).

(** The state of the hook: four [useState] cells and the
    [lastTranscriptRef] reference. *)
Record state : Type := mkState {
  currentSummary : option jsstring;
  summaryHistory : list SummaryItem;
  isLoading : bool;
  error : option jsstring;
  lastTranscriptRef : jsstring
}.

Definition initial : state :=
  {| currentSummary := None; summaryHistory := []; isLoading := false;
     error := None; lastTranscriptRef := [] |}.

Definition set_lastTranscriptRef (text : jsstring) (st : state) : state :=
  {| currentSummary := currentSummary st;
     summaryHistory := summaryHistory st;
     isLoading := isLoading st;
     error := error st;
     lastTranscriptRef := text |}.

Definition failureMessage : jsstring :=
  Eval cbv in lit "Failed to generate summary".

(** [generateSummary] up to its [await]: the guard on blank text, the two
    state updates and the call to the summary service. *)
Definition generateSummary_call (text : jsstring) (st : state)
    : state * list request :=
  if negb (truthy text) || negb (truthy (trim text)) then (st, [])
  else
    ({| currentSummary := currentSummary st;
        summaryHistory := summaryHistory st;
        isLoading := true;
        error := None;
        lastTranscriptRef := lastTranscriptRef st |},
     [Summarize text]).

(** [generateSummary] after its [await]: the [try] body on a response,
    the [catch] block on an error, then the [finally] block.  [now] is
    [Date.now().toString()]. *)
Definition generateSummary_settle (o : outcome) (now : jsstring)
    (st : state) : state :=
  match o with
  | Resolved response =>
      let newSummaryItem :=
        {| id := now;
           summary := response_summary response;
           timestamp := response_timestamp response |} in
      {| currentSummary := Some (response_summary response);
         summaryHistory := newSummaryItem :: summaryHistory st;
         isLoading := false;
         error := error st;
         lastTranscriptRef := [] |}
  | Rejected message =>
      {| currentSummary := currentSummary st;
         summaryHistory := summaryHistory st;
         isLoading := false;
         error := or_else message (Some failureMessage);
         lastTranscriptRef := lastTranscriptRef st |}
  end.

(** One whole run of [generateSummary] with nothing interleaved. *)
Definition generateSummary (text : jsstring) (o : outcome) (now : jsstring)
    (st : state) : state :=
  match generateSummary_call text st with
  | (st', []) => st'
  | (st', _ :: _) => generateSummary_settle o now st'
  end.

(** [transcript.replace(/ \[interim\].*$/, '')]: the match starts at the
    first marker that no line terminator follows and runs to the end of
    the string, so the replacement keeps the text before it. *)
Fixpoint stripInterim (transcript : jsstring) : jsstring :=
  match transcript with
  | [] => []
  | c :: rest =>
      if startsWith interimMarker transcript
         && forallb (fun d => negb (is_line_terminator d))
                    (skipn (List.length interimMarker) transcript)
      then []
      else c :: stripInterim rest
  end.

(** The callback of [setInterval], with the [transcript] its closure
    holds. *)
Definition intervalFire (transcript : jsstring) (st : state)
    : state * list request :=
  let transcriptToSummarize := stripInterim transcript in
  if truthy (trim transcriptToSummarize)
     && negb (jsstring_eqb transcriptToSummarize (lastTranscriptRef st))
  then
    let '(st', requests) := generateSummary_call transcriptToSummarize st in
    (set_lastTranscriptRef transcriptToSummarize st', requests)
  else (st, []).

(** The body of the effect while recording, before it sets the interval:
    the immediate summary. *)
Definition effectRun (transcript : jsstring) (st : state)
    : state * list request :=
  if truthy transcript
     && negb (jsstring_eqb transcript (lastTranscriptRef st))
  then
    let transcriptToSummarize := stripInterim transcript in
    if truthy (trim transcriptToSummarize) then
      let '(st', requests) := generateSummary_call transcriptToSummarize st in
      (set_lastTranscriptRef transcript st', requests)
    else (st, [])
  else (st, []).

Definition clearSummaries (st : state) : state :=
  {| currentSummary := None; summaryHistory := [];
     isLoading := isLoading st; error := error st;
     lastTranscriptRef := [] |}.

End Summaries.

(** ** The streaming client ([DeepgramService]) *)

Module Deepgram.

(** A parsed message, with the fields [handleDeepgramMessage] reads; a
    field that is [undefined] is [None].  [channel_transcript] is
    [data.channel?.alternatives?.[0]?.transcript]. *)
Record message : Type := mkMessage {
  type : option jsstring;
  transcript : option jsstring;
  event : option jsstring;
  end_of_turn_confidence : option Q;
  is_final : option bool;
  channel_transcript : option jsstring
}.

(** [v === 'text'] *)
Definition is_string (v : option jsstring) (text : string) : bool :=
  match v with
  | Some s => jsstring_eqb s (lit text)
  | None => false
  end.

(** [v > 0.5]; a comparison with [undefined] is false. *)
Definition above_half (v : option Q) : bool :=
  match v with
  | Some q => negb (Qle_bool q (1 # 2)%Q)
  | None => false
  end.

(** [v || false] *)
Definition flag (v : option bool) : bool :=
  match v with
  | Some b => b
  | None => false
  end.

Definition socket := nat.
Definition callback := nat.
Definition timer := nat.

(** The fields of the service object. *)
Record service : Type := mkService {
  ws : option socket;
  isRecording : bool;
  transcriptCallback : option callback;
  audioChunkCount : nat;
  testAudioInterval : option timer;
  useTestAudio : bool;
  audioRecordInitialized : bool
}.

(** [handleDeepgramMessage]: the callback it invokes and the message it
    passes, if it invokes one. *)
Definition handleDeepgramMessage (data : message) (st : service)
    : option (callback * TranscriptMessage) :=
  if is_string (type data) "TurnInfo" then
    match transcript data with
    | Some text =>
        let isFinal :=
          is_string (event data) "EndOfTurn"
          || (is_string (event data) "Update"
              && above_half (end_of_turn_confidence data)) in
        match transcriptCallback st with
        | Some cb =>
            if truthy (trim text)
            then Some (cb, mkTranscriptMessage text isFinal)
            else None
        | None => None
        end
    | None => None
    end
  else if is_string (type data) "Results" then
    if truthy_opt (channel_transcript data) then
      match channel_transcript data with
      | Some text =>
          let isFinal := flag (is_final data) in
          match transcriptCallback st with
          | Some cb =>
              if truthy (trim text)
              then Some (cb, mkTranscriptMessage text isFinal)
              else None
          | None => None
          end
      | None => None
      end
    else None
  else None.

(** The calls [stopTranscription] makes on its collaborators. *)
Inductive effect : Type :=
| ClearInterval (t : timer)
| AudioRecordStop
| WsClose (s : socket) (code : Z) (reason : jsstring).

Definition stopTestAudio (st : service) : service * list effect :=
  match testAudioInterval st with
  | Some t =>
      ({| ws := ws st; isRecording := isRecording st;
          transcriptCallback := transcriptCallback st;
          audioChunkCount := audioChunkCount st;
          testAudioInterval := None;
          useTestAudio := useTestAudio st;
          audioRecordInitialized := audioRecordInitialized st |},
       [ClearInterval t])
  | None => (st, [])
  end.

(** [throws e] tells whether the call [e] throws.  An exception of
    [AudioRecord.stop()] is caught before the flag is reset. *)
Definition stopMicrophoneAudio (throws : effect -> bool) (st : service)
    : service * list effect :=
  if audioRecordInitialized st then
    if throws AudioRecordStop then (st, [AudioRecordStop])
    else
      ({| ws := ws st; isRecording := isRecording st;
          transcriptCallback := transcriptCallback st;
          audioChunkCount := audioChunkCount st;
          testAudioInterval := testAudioInterval st;
          useTestAudio := useTestAudio st;
          audioRecordInitialized := false |},
       [AudioRecordStop])
  else (st, []).

Definition normalClosure : jsstring := Eval cbv in lit "Normal closure".

(** [stopTranscription].  An exception of [ws.close] leaves the [try]
    block, so the socket and the callback are not cleared. *)
Definition stopTranscription (throws : effect -> bool) (st : service)
    : service * list effect :=
  if negb (isRecording st) then (st, [])
  else
    let st1 :=
      {| ws := ws st; isRecording := false;
         transcriptCallback := transcriptCallback st;
         audioChunkCount := audioChunkCount st;
         testAudioInterval := testAudioInterval st;
         useTestAudio := useTestAudio st;
         audioRecordInitialized := audioRecordInitialized st |} in
    let '(st2, stopped) :=
      if useTestAudio st1 then stopTestAudio st1
      else stopMicrophoneAudio throws st1 in
    let cleared (s : option socket) :=
      {| ws := s; isRecording := isRecording st2;
         transcriptCallback := None;
         audioChunkCount := audioChunkCount st2;
         testAudioInterval := testAudioInterval st2;
         useTestAudio := useTestAudio st2;
         audioRecordInitialized := audioRecordInitialized st2 |} in
    match ws st2 with
    | Some s =>
        let close := WsClose s 1000 normalClosure in
        if throws close then (st2, stopped ++ [close])
        else (cleared None, stopped ++ [close])
    | None => (cleared None, stopped)
    end.

(** *** Notions used to state the properties *)



(** An update of a turn with end-of-turn confidence 0.9. *)
Definition confidentUpdate : message :=
  {| type := Some (lit "TurnInfo"); transcript := Some (lit "Hello world");
     event := Some (lit "Update"); end_of_turn_confidence := Some (9 # 10)%Q;
     is_final := None; channel_transcript := None |}.

(** A session that is recording, with socket 1 and callback 7. *)
Definition recordingSession : service :=
  {| ws := Some 1; isRecording := true; transcriptCallback := Some 7;
     audioChunkCount := 0; testAudioInterval := None;
     useTestAudio := false; audioRecordInitialized := true |}.

End Deepgram.

(** ** The API server *)

Module Server.

(** *** [enforceSentenceLimit] *)

(** The class [[.!?]]. *)
Definition is_terminal (c : ascii) : bool :=
  if ascii_dec c "." then true
  else if ascii_dec c "!" then true
  else if ascii_dec c "?" then true
  else false.

Fixpoint dropWhile (p : ascii -> bool) (s : jsstring) : jsstring :=
  match s with
  | [] => []
  | c :: rest => if p c then dropWhile p rest else s
  end.

(** A match of [/[.!?]+\s+/] at the start of [s]: what follows the match.
    Both repetitions are greedy and the two classes are disjoint, so the
    match takes the whole run of terminal punctuation and then the whole
    run of white space, and needs one character of each. *)
Definition matchSeparator (s : jsstring) : option jsstring :=
  match s with
  | c :: _ =>
      if is_terminal c then
        match dropWhile is_terminal s with
        | d :: after =>
            if is_space d then Some (dropWhile is_space after) else None
        | [] => None
        end
      else None
  | [] => None
  end.

(** The loop of [split] on a regular expression: at each position try a
    match; on a match close the current piece and go on after the match,
    otherwise move one character on.  [piece] holds the current piece
    reversed.  A step consumes at least one character, so a fuel of the
    length of the text is enough. *)
Fixpoint splitLoop (fuel : nat) (piece : jsstring) (s : jsstring)
    : list jsstring :=
  match s with
  | [] => [rev piece]
  | c :: rest =>
      match fuel with
      | O => [rev piece ++ s]
      | S fuel' =>
          match matchSeparator s with
          | Some after => rev piece :: splitLoop fuel' [] after
          | None => splitLoop fuel' (c :: piece) rest
          end
      end
  end.

(** [text.split(/[.!?]+\s+/)] *)
Definition splitSentences (text : jsstring) : list jsstring :=
  splitLoop (List.length text) [] text.

(** [text.split(/[.!?]+\s+/).filter(s => s.trim())] *)
Definition sentences (text : jsstring) : list jsstring :=
  List.filter (fun s => truthy (trim s)) (splitSentences text).

(** [result.match(/[.!?]$/)] finds a match: the last character is
    terminal punctuation. *)
Definition endsWithTerminal (result : jsstring) : bool :=
  match rev result with
  | c :: _ => is_terminal c
  | [] => false
  end.

(** [enforceSentenceLimit(text, maxSentences)] for an integer
    [maxSentences]. *)
Definition enforceSentenceLimit (text : jsstring) (maxSentences : Z)
    : jsstring :=
  if negb (truthy text) then []
  else
    let sentences := sentences text in
    if (Z.of_nat (List.length sentences) <=? maxSentences)%Z then text
    else
      let truncated := slice0 sentences maxSentences in
      let result := join (lit ". ") truncated in
      if negb (endsWithTerminal result) then result ++ lit "."
      else result.

(** *** Notions used to reason about the splitting loop *)

(** The loop of [split] with fuel to spare. *)
Definition splitFrom (piece s : jsstring) : list jsstring :=
  splitLoop (List.length s) piece s.

(** What follows a separator does not start with white space. *)
Definition startsClean (s : jsstring) : Prop :=
  match s with
  | d :: _ => is_space d = false
  | [] => True
  end.

(** No separator can start at the head of [u], whatever follows [u]:
    the head is not terminal punctuation, or the run of punctuation it
    starts ends inside [u] on a character that is not white space. *)
Definition stuck (u : jsstring) : bool :=
  match u with
  | [] => false
  | c :: _ =>
      if is_terminal c then
        match dropWhile is_terminal u with
        | d :: _ => negb (is_space d)
        | [] => false
        end
      else true
  end.

(** No separator can start anywhere in [p], whatever follows [p]. *)
Fixpoint unbroken (p : jsstring) : bool :=
  match p with
  | [] => true
  | _ :: rest => stuck p && unbroken rest
  end.

(** No separator starts anywhere in [p] when [s] follows it. *)
Fixpoint quiet (p s : jsstring) : Prop :=
  match p with
  | [] => True
  | _ :: rest => matchSeparator (p ++ s) = None /\ quiet rest s
  end.

(** A character that [trim] keeps. *)
Definition visible (c : ascii) : bool := negb (is_space c).

(** *** The message handler of [/transcribe-file] *)

(** The two variables the handlers of one request share. *)
Record fileState : Type := mkFileState {
  transcript : jsstring;
  isComplete : bool
}.

Definition fileStart : fileState :=
  {| transcript := []; isComplete := false |}.

(** The handler of ['message'] from the parsed message on.  A frame whose
    text is not a JSON object, or does not parse, changes nothing and is
    [None] here. *)
Definition onFileMessage (incoming : option Deepgram.message)
    (st : fileState) : fileState :=
  match incoming with
  | None => st
  | Some message =>
      if Deepgram.is_string (Deepgram.type message) "TurnInfo"
         && match Deepgram.transcript message with
            | Some _ => true
            | None => false
            end
      then
        match Deepgram.transcript message with
        | Some newTranscript =>
            let isFinal :=
              Deepgram.is_string (Deepgram.event message) "EndOfTurn"
              || (Deepgram.is_string (Deepgram.event message) "Update"
                  && Deepgram.above_half
                       (Deepgram.end_of_turn_confidence message)) in
            if truthy (trim newTranscript) then
              if isFinal
              then {| transcript := newTranscript; isComplete := true |}
              else {| transcript := newTranscript;
                      isComplete := isComplete st |}
            else st
        | None => st
        end
      else if Deepgram.is_string (Deepgram.type message) "Results"
              && truthy_opt (Deepgram.channel_transcript message)
      then
        match Deepgram.channel_transcript message with
        | Some newTranscript =>
            let isFinal := Deepgram.flag (Deepgram.is_final message) in
            if truthy (trim newTranscript) then
              if isFinal
              then {| transcript := newTranscript; isComplete := true |}
              else {| transcript := newTranscript;
                      isComplete := isComplete st |}
            else st
        | None => st
        end
      else st
  end.

Definition onFileMessages (incoming : list (option Deepgram.message))
    (st : fileState) : fileState :=
  fold_left (fun s m => onFileMessage m s) incoming st.

Record fileResponse : Type := mkFileResponse {
  response_transcript : jsstring;
  response_isFinal : bool
}.

Definition noTranscript : jsstring :=
  Eval cbv in lit "No transcript received".

(** The handler of ['close'], when no response was sent before. *)
Definition onFileClose (st : fileState) : fileResponse :=
  {| response_transcript :=
       if truthy (transcript st) then transcript st else noTranscript;
     response_isFinal := isComplete st |}.

(** The text a message brings to the handler, if the handler reads one
    from it. *)
Definition fragmentText (incoming : option Deepgram.message)
    : option jsstring :=
  match incoming with
  | None => None
  | Some message =>
      if Deepgram.is_string (Deepgram.type message) "TurnInfo"
      then Deepgram.transcript message
      else if Deepgram.is_string (Deepgram.type message) "Results"
      then Deepgram.channel_transcript message
      else None
  end.

(** A text is blank when nothing is left of it after [trim]. *)
Definition notBlank (text : jsstring) : bool := truthy (trim text).

Definition fromOption (v : option jsstring) (d : jsstring) : jsstring :=
  match v with
  | Some t => t
  | None => d
  end.

(** The latest fragment text that satisfies [keep], one message on. *)
Definition keepLatest (keep : jsstring -> bool) (acc : option jsstring)
    (m : option Deepgram.message) : option jsstring :=
  match fragmentText m with
  | Some text => if keep text then Some text else acc
  | None => acc
  end.

(** The text of the last fragment whose text satisfies [keep]. *)
Definition lastFragment (keep : jsstring -> bool)
    (incoming : list (option Deepgram.message)) : option jsstring :=
  fold_left (keepLatest keep) incoming None.

(** An interim [TurnInfo] message with the given transcript. *)
Definition turnUpdate (text : string) : option Deepgram.message :=
  Some {| Deepgram.type := Some (lit "TurnInfo");
          Deepgram.transcript := Some (lit text);
          Deepgram.event := Some (lit "Update");
          Deepgram.end_of_turn_confidence := None;
          Deepgram.is_final := None;
          Deepgram.channel_transcript := None |}.

(** *** The proxy of [/ws/deepgram] *)

Inductive readyState : Type := CONNECTING | OPEN | CLOSING | CLOSED.

Definition is_open (s : readyState) : bool :=
  match s with
  | OPEN => true
  | _ => false
  end.

(** [process.env.DEEPGRAM_API_KEY || process.env.DEEPGRAM_API_Key] *)
Definition DEEPGRAM_API_KEY (env : gmap string jsstring)
    : option jsstring :=
  or_else (env !! "DEEPGRAM_API_KEY"%string) (env !! "DEEPGRAM_API_Key"%string).

(** [url.searchParams.get(name) || fallback] *)
Fixpoint searchParam (params : list (jsstring * jsstring))
    (name : jsstring) : option jsstring :=
  match params with
  | [] => None
  | (k, v) :: rest =>
      if jsstring_eqb k name then Some v else searchParam rest name
  end.

Definition paramOr (params : list (jsstring * jsstring))
    (name fallback : string) : jsstring :=
  match or_else (searchParam params (lit name)) (Some (lit fallback)) with
  | Some v => v
  | None => lit fallback
  end.

Definition deepgramUrl (params : list (jsstring * jsstring)) : jsstring :=
  lit "wss://api.deepgram.com/v1/listen?encoding="
  ++ paramOr params "encoding" "linear16"
  ++ lit "&sample_rate=" ++ paramOr params "sample_rate" "16000"
  ++ lit "&channels=" ++ paramOr params "channels" "1"
  ++ lit "&model=" ++ paramOr params "model" "nova-2"
  ++ lit "&language=" ++ paramOr params "language" "en"
  ++ lit "&punctuate=" ++ paramOr params "punctuate" "true"
  ++ lit "&interim_results=" ++ paramOr params "interim_results" "true".

(** What a handler of the proxy does to its two sockets. *)
Inductive action : Type :=
| CloseClient (status : option (Z * jsstring))
| ConnectUpstream (url : jsstring) (authorization : jsstring)
| CloseUpstream.

Definition missingKeyStatus : Z * jsstring :=
  (1011%Z, lit "Server configuration error: Missing API key").

Definition upstreamErrorStatus : Z * jsstring :=
  (1011%Z, lit "Deepgram connection error").

(** A value inside a template literal. *)
Definition template (v : option jsstring) : jsstring :=
  match v with
  | Some s => s
  | None => lit "undefined"
  end.

(** The handler of ['connection']: without a key it closes the client
    socket and returns; otherwise it creates the upstream socket. *)
Definition onConnection (env : gmap string jsstring)
    (params : list (jsstring * jsstring)) : list action :=
  let deepgramUrl := deepgramUrl params in
  if negb (truthy_opt (DEEPGRAM_API_KEY env))
  then [CloseClient (Some missingKeyStatus)]
  else [ConnectUpstream deepgramUrl
          (lit "Token " ++ template (DEEPGRAM_API_KEY env))].

(** The handlers of ['error'] and ['close'] of the upstream socket and of
    ['close'] of the client socket. *)
Definition onUpstreamError (client : readyState) : list action :=
  if is_open client then [CloseClient (Some upstreamErrorStatus)] else [].

Definition onUpstreamClose (client : readyState) : list action :=
  if is_open client then [CloseClient None] else [].

Definition onClientClose (upstream : readyState) : list action :=
  if is_open upstream then [CloseUpstream] else [].

(** The [data] of a ['message'] event, in the three shapes the handler
    tells apart: a [Buffer], a string, or another byte container. *)
Inductive wsData : Type :=
| DBuffer (bytes : list ascii)
| DString (text : jsstring)
| DBytes (bytes : list ascii).

(** The content of [data]: its bytes, or its code units. *)
Definition content (data : wsData) : list ascii :=
  match data with
  | DBuffer bytes => bytes
  | DString text => text
  | DBytes bytes => bytes
  end.

(** A frame passed to [send]: its payload and whether it is binary. *)
Record frame : Type := mkFrame {
  payload : list ascii;
  binary : bool
}.

Section Relay.

(** [Buffer.from(text)] and [Buffer.from(text, 'base64')]: the UTF-8
    encoder and the base64 decoder of the runtime. *)
Variable utf8 : jsstring -> list ascii.
Variable base64 : jsstring -> list ascii.

(** [Buffer.isBuffer(data)] *)
Definition isBuffer (data : wsData) : bool :=
  match data with
  | DBuffer _ => true
  | _ => false
  end.

(** [Buffer.from(data)] *)
Definition bufferFrom (data : wsData) : list ascii :=
  match data with
  | DBuffer bytes => bytes
  | DString text => utf8 text
  | DBytes bytes => bytes
  end.

(** The handler of ['message'] of the client socket: the frames it sends
    upstream. *)
Definition onClientMessage (upstream : readyState) (data : wsData)
    (isBinary : bool) : list frame :=
  if is_open upstream then
    if isBinary || isBuffer data then
      let buffer := if isBuffer data then content data else bufferFrom data in
      [mkFrame buffer true]
    else
      match data with
      | DString text =>
          if startsWith (lit "{") (trim text) then [mkFrame text false]
          else [mkFrame (base64 text) true]
      | _ =>
          let buffer := bufferFrom data in
          [mkFrame buffer true]
      end
  else [].

End Relay.

(** The handler of ['message'] of the upstream socket: the frames it
    sends to the client. *)
Definition onUpstreamMessage (client : readyState) (data : wsData)
    (isBinary : bool) : list frame :=
  if is_open client then [mkFrame (content data) isBinary] else [].

(** The JSON control message of type KeepAlive of the streaming
    protocol, which a client sends as a text frame: an object with the
    one member type. *)
Definition keepAlive : jsstring :=
  Eval cbv in
    lit "{" ++ ["034"%char] ++ lit "type" ++ ["034"%char] ++ lit ":"
    ++ ["034"%char] ++ lit "KeepAlive" ++ ["034"%char] ++ lit "}".

(** A relay that is transparent for one frame: one frame goes out, with
    the content and the nature of the frame that came in. *)
Definition transparent (utf8 base64 : jsstring -> list ascii)
    (data : wsData) (isBinary : bool) : Prop :=
  onClientMessage utf8 base64 OPEN data isBinary
  = [mkFrame (content data) isBinary].

End Server.

(** ** The streaming client: capture, start and incoming frames *)

Module Capture.

Import Deepgram.

(** The calls the service makes on its collaborators, besides those of
    [stopTranscription]: [NewWebSocket] is [new WebSocket(proxyUrl)],
    [WsCloseBare s] the [this.ws.close()] of the connection timeout. *)
Inductive call : Type :=
| RequestPermission
| NewWebSocket
| WsCloseBare (s : socket)
| SetInterval (t : timer)
| AudioRecordInit
| AudioRecordOn
| AudioRecordStart
| WsSend (s : socket) (data : list ascii)
| Stopping (e : effect).

Definition set_ws (s : option socket) (st : service) : service :=
  {| ws := s; isRecording := isRecording st;
     transcriptCallback := transcriptCallback st;
     audioChunkCount := audioChunkCount st;
     testAudioInterval := testAudioInterval st;
     useTestAudio := useTestAudio st;
     audioRecordInitialized := audioRecordInitialized st |}.

Definition set_isRecording (b : bool) (st : service) : service :=
  {| ws := ws st; isRecording := b;
     transcriptCallback := transcriptCallback st;
     audioChunkCount := audioChunkCount st;
     testAudioInterval := testAudioInterval st;
     useTestAudio := useTestAudio st;
     audioRecordInitialized := audioRecordInitialized st |}.

Definition set_transcriptCallback (cb : option callback) (st : service)
    : service :=
  {| ws := ws st; isRecording := isRecording st;
     transcriptCallback := cb;
     audioChunkCount := audioChunkCount st;
     testAudioInterval := testAudioInterval st;
     useTestAudio := useTestAudio st;
     audioRecordInitialized := audioRecordInitialized st |}.

Definition set_audioChunkCount (n : nat) (st : service) : service :=
  {| ws := ws st; isRecording := isRecording st;
     transcriptCallback := transcriptCallback st;
     audioChunkCount := n;
     testAudioInterval := testAudioInterval st;
     useTestAudio := useTestAudio st;
     audioRecordInitialized := audioRecordInitialized st |}.

Definition set_testAudioInterval (t : option timer) (st : service)
    : service :=
  {| ws := ws st; isRecording := isRecording st;
     transcriptCallback := transcriptCallback st;
     audioChunkCount := audioChunkCount st;
     testAudioInterval := t;
     useTestAudio := useTestAudio st;
     audioRecordInitialized := audioRecordInitialized st |}.

Definition set_useTestAudio (b : bool) (st : service) : service :=
  {| ws := ws st; isRecording := isRecording st;
     transcriptCallback := transcriptCallback st;
     audioChunkCount := audioChunkCount st;
     testAudioInterval := testAudioInterval st;
     useTestAudio := b;
     audioRecordInitialized := audioRecordInitialized st |}.

Definition set_audioRecordInitialized (b : bool) (st : service) : service :=
  {| ws := ws st; isRecording := isRecording st;
     transcriptCallback := transcriptCallback st;
     audioChunkCount := audioChunkCount st;
     testAudioInterval := testAudioInterval st;
     useTestAudio := useTestAudio st;
     audioRecordInitialized := b |}.

(** The service object as the class creates it. *)
Definition fresh : service :=
  {| ws := None; isRecording := false; transcriptCallback := None;
     audioChunkCount := 0; testAudioInterval := None;
     useTestAudio := false; audioRecordInitialized := false |}.

(** [sendAudioData]: [ready] gives the [readyState] of a socket.  The
    bytes go out as they are; an exception of [send] is caught. *)
Definition sendAudioData (ready : socket -> Server.readyState)
    (audioData : list ascii) (st : service) : list call :=
  match ws st with
  | Some s =>
      if Server.is_open (ready s) && isRecording st
      then [WsSend s audioData]
      else []
  | None => []
  end.

(** The callback of the test-audio interval, with the bytes of the chunk
    it generates. *)
Definition testAudioTick (ready : socket -> Server.readyState)
    (samples : list ascii) (st : service) : list call :=
  if negb (isRecording st) then []
  else
    match ws st with
    | None => []
    | Some s =>
        if negb (Server.is_open (ready s)) then []
        else sendAudioData ready samples st
    end.

(** What a socket delivers to [onmessage]. *)
Inductive eventData : Type :=
| Binary (bytes : list ascii)
| Text (text : jsstring).

Section Runtime.

(** [Buffer.from(data, 'base64')] and [JSON.parse]; [None] stands for a
    [SyntaxError]. *)
Variable base64 : jsstring -> list ascii.
Variable parse : jsstring -> option message.

(** The callback of [AudioRecord.on('data')]. *)
Definition onAudioData (ready : socket -> Server.readyState)
    (data : jsstring) (st : service) : service * list call :=
  if negb (isRecording st) then (st, [])
  else
    match ws st with
    | None => (st, [])
    | Some s =>
        if negb (Server.is_open (ready s)) then (st, [])
        else
          let audioChunk := base64 data in
          let st' := set_audioChunkCount (S (audioChunkCount st)) st in
          (st', sendAudioData ready audioChunk st')
    end.

(** The [onmessage] handler of the socket: the callback it invokes and
    the fragment it passes, if any. *)
Definition onMessage (data : eventData) (st : service)
    : option (callback * TranscriptMessage) :=
  match data with
  | Binary _ => None
  | Text messageText =>
      if negb (truthy messageText)
         || negb (startsWith (lit "{") (trim messageText))
      then None
      else
        match parse messageText with
        | Some parsed => handleDeepgramMessage parsed st
        | None => None
        end
  end.

End Runtime.

(** The [onclose] handler of the socket. *)
Definition onClose (st : service) : service := set_ws None st.

(** [initAudioRecord]: [fails c] is the message of the exception the
    call [c] throws, if it throws. *)
Definition initAudioRecord (fails : call -> option jsstring)
    (st : service) : service * list call * option jsstring :=
  if audioRecordInitialized st then (st, [], None)
  else
    match fails AudioRecordInit with
    | Some message => (st, [AudioRecordInit], Some message)
    | None => (set_audioRecordInitialized true st, [AudioRecordInit], None)
    end.

Definition captureFailed (message : jsstring) : jsstring :=
  lit "Microphone capture failed: " ++ message.

(** [startMicrophoneAudio]: the message of the error it throws, if it
    throws. *)
Definition startMicrophoneAudio (fails : call -> option jsstring)
    (st : service) : service * list call * option jsstring :=
  match initAudioRecord fails st with
  | (st1, calls, Some message) => (st1, calls, Some (captureFailed message))
  | (st1, calls, None) =>
      match fails AudioRecordStart with
      | Some message =>
          (st1, calls ++ [AudioRecordOn; AudioRecordStart],
           Some (captureFailed message))
      | None => (st1, calls ++ [AudioRecordOn; AudioRecordStart], None)
      end
  end.

(** How the promise of [connectDeepgram] settles.  [Opened s]: the socket
    [s] it created opened.  [CreateFailed]: the constructor threw an error
    with this message.  [TimedOut s]: ten seconds passed with no event on
    [s].  [Errored s]: [onerror] ran first, with this [error?.message].
    [ClosedEarly s]: [onclose] ran first with a code other than 1000 and
    1001, and rejected with this message. *)
Inductive connectOutcome : Type :=
| Opened (s : socket)
| CreateFailed (message : jsstring)
| TimedOut (s : socket)
| Errored (s : socket) (message : option jsstring)
| ClosedEarly (s : socket) (message : jsstring).

Definition connectionTimeout : jsstring :=
  Eval cbv in
    lit "Connection timeout. Check your API key and network connection.".

Definition connectionFailed : jsstring :=
  Eval cbv in lit "WebSocket connection failed. Please check your API key.".

(** [connectDeepgram]: the state it leaves, the calls it made and the
    message of the error it rejects with, if it rejects.  The timeout
    closes the socket it created and leaves it in [this.ws]; [onclose]
    sets [this.ws] to [null]. *)
Definition connectDeepgram (connect : connectOutcome) (st : service)
    : service * list call * option jsstring :=
  match connect with
  | Opened s => (set_ws (Some s) st, [NewWebSocket], None)
  | CreateFailed message =>
      (st, [NewWebSocket],
       Some (lit "Failed to create WebSocket: " ++ message))
  | TimedOut s =>
      (set_ws (Some s) st, [NewWebSocket; WsCloseBare s],
       Some connectionTimeout)
  | Errored s message =>
      (set_ws (Some s) st, [NewWebSocket],
       Some (Server.template (or_else message (Some connectionFailed))))
  | ClosedEarly s message => (set_ws None st, [NewWebSocket], Some message)
  end.

Inductive startResult : Type :=
| StartOk
| StartFailed (message : jsstring).

Definition permissionDenied : jsstring :=
  Eval cbv in lit "Microphone permission denied".

(** [startTranscription], run without interruption.  [hasPermission] is
    the answer of [requestPermissions], [t] the timer [setInterval]
    returns. *)
Definition startTranscription (throws : effect -> bool)
    (fails : call -> option jsstring) (hasPermission : bool)
    (connect : connectOutcome) (t : timer)
    (cb : callback) (useTest : bool) (st : service)
    : service * list call * startResult :=
  if isRecording st then (st, [], StartOk)
  else
    let failed (st' : service) (calls : list call) (message : jsstring) :=
      let '(st'', stops) := stopTranscription throws st' in
      (st'', calls ++ map Stopping stops, StartFailed message) in
    if negb hasPermission && negb useTest then
      failed st [RequestPermission] permissionDenied
    else
      match connectDeepgram connect st with
      | (st0, connecting, Some message) =>
          failed st0 (RequestPermission :: connecting) message
      | (st0, connecting, None) =>
          let st1 :=
            set_useTestAudio useTest
              (set_transcriptCallback (Some cb) st0) in
          if useTest then
            (set_isRecording true (set_testAudioInterval (Some t) st1),
             RequestPermission :: connecting ++ [SetInterval t], StartOk)
          else
            match startMicrophoneAudio fails st1 with
            | (st2, calls, Some message) =>
                failed st2 (RequestPermission :: connecting ++ calls)
                  message
            | (st2, calls, None) =>
                (set_isRecording true st2,
                 RequestPermission :: connecting ++ calls, StartOk)
            end
      end.

(** How the request of [transcribeFile] ends: a response with its
    [data.transcript], or an error. *)
Inductive fileOutcome : Type :=
| FileResponse (transcript : option jsstring)
| FileFailed (message : jsstring).

(** [transcribeFile]: the new service state, the fragment passed to the
    callback if any, and the transcript returned or the message of the
    error thrown. *)
Definition transcribeFile (cb : option callback) (o : fileOutcome)
    (st : service)
    : service * option (callback * TranscriptMessage) * (jsstring + jsstring) :=
  let st' :=
    match cb with
    | Some c => set_transcriptCallback (Some c) st
    | None => st
    end in
  match o with
  | FileResponse data =>
      let transcript :=
        match or_else data (Some []) with
        | Some text => text
        | None => []
        end in
      (st',
       match cb with
       | Some c =>
           if truthy transcript
           then Some (c, mkTranscriptMessage transcript true)
           else None
       | None => None
       end,
       inl transcript)
  | FileFailed message =>
      (st', None, inr (lit "Failed to transcribe file: " ++ message))
  end.

End Capture.

(** ** The transcript hook and the app around the service *)

Module Mobile.

(** The [useState] cells of [useTranscription]. *)
Record hook : Type := mkHook {
  transcript : jsstring;
  isRecording : bool;
  error : option jsstring
}.

Definition startFailure : jsstring :=
  Eval cbv in lit "Failed to start transcription".

(** [startTranscription] of the hook, after the service call ended with
    [r]. *)
Definition startTranscription (r : Capture.startResult) (h : hook) : hook :=
  match r with
  | Capture.StartOk =>
      {| transcript := transcript h; isRecording := true; error := None |}
  | Capture.StartFailed message =>
      {| transcript := transcript h; isRecording := false;
         error := or_else (Some message) (Some startFailure) |}
  end.

(** [stopTranscription] of the hook; the service call does not throw. *)
Definition stopTranscription (h : hook) : hook :=
  {| transcript := transcript h; isRecording := false; error := error h |}.

(** [handleTranscriptMessage] of [App]: the update of [fileTranscript]. *)
Definition handleFileMessage (message : TranscriptMessage)
    (fileTranscript : jsstring) : jsstring :=
  if isFinal message && truthy (Transcription.transcript message)
  then Transcription.transcript message
  else fileTranscript.

(** [handleTestMP3] from the answer of [transcribeFile] on: the
    callback, then the direct update.  An error leaves the state. *)
Definition handleTestMP3
    (answer : option (Deepgram.callback * TranscriptMessage)
              * (jsstring + jsstring))
    (fileTranscript : jsstring) : jsstring :=
  match answer with
  | (_, inr _) => fileTranscript
  | (delivered, inl transcript) =>
      let afterCallback :=
        match delivered with
        | Some (_, message) =>
            if isFinal message && truthy (Transcription.transcript message)
            then handleFileMessage message fileTranscript
            else fileTranscript
        | None => fileTranscript
        end in
      if truthy transcript
      then handleFileMessage (mkTranscriptMessage transcript true)
             afterCallback
      else afterCallback
  end.

(** [liveTranscript || fileTranscript] *)
Definition shownTranscript (liveTranscript fileTranscript : jsstring)
    : jsstring :=
  if truthy liveTranscript then liveTranscript else fileTranscript.

End Mobile.

(** ** The summary service of the app and the routes of the server *)

Module Api.

Import Server.

(** *** [summarizeText] and [POST /summarize] *)

Definition quote : ascii := ascii_of_nat 34.
Definition newline : ascii := ascii_of_nat 10.

Definition MODEL_NAME : jsstring := Eval cbv in lit "ai/smollm2:135M-Q4_K_M".

(** An integer inside a template literal. *)
Definition decimal (n : Z) : jsstring :=
  lit (DecimalString.NilZero.string_of_int (Z.to_int n)).

(** [prompt.replace(/"/g, '\\"')] *)
Definition escapeQuotes (s : jsstring) : jsstring :=
  flat_map (fun c => if ascii_dec c quote then ["\"%char; quote] else [c]) s.

Definition prompt (text : jsstring) (maxSentences : Z) : jsstring :=
  text ++ [newline; newline] ++ lit "Summarize the above in "
  ++ decimal maxSentences ++ lit " sentences.".

(** The command line passed to [execAsync]. *)
Definition command (text : jsstring) (maxSentences : Z) : jsstring :=
  lit "docker model run " ++ MODEL_NAME ++ lit " " ++ [quote]
  ++ escapeQuotes (prompt text maxSentences) ++ [quote].

(** How [execAsync] ends: with the two outputs, or with an error that
    tells whether the process was killed at the timeout. *)
Inductive execOutcome : Type :=
| ExecDone (stdout stderr : jsstring)
| ExecFailed (killed : bool) (message : jsstring).

Inductive thrown (A : Type) : Type :=
| Returned (value : A)
| Thrown (message : jsstring).

Arguments Returned {A} value.
Arguments Thrown {A} message.

Definition timedOut : jsstring :=
  Eval cbv in lit "Model inference timed out after 30 seconds".

Definition inferenceFailed (message : jsstring) : jsstring :=
  lit "Model inference failed: " ++ message.

(** [summarizeText]: the commands it runs and how it ends.  The error
    thrown inside the [try] for a run that only wrote to [stderr] is
    caught by the same [catch] as a failure of the command. *)
Definition summarizeText (text : jsstring) (maxSentences : Z)
    (o : execOutcome) : list jsstring * thrown jsstring :=
  if negb (truthy text) || negb (truthy (trim text)) then ([], Returned [])
  else
    ([command text maxSentences],
     match o with
     | ExecDone stdout stderr =>
         if truthy stderr && negb (truthy stdout)
         then Thrown (inferenceFailed (lit "Docker model error: " ++ stderr))
         else Returned (enforceSentenceLimit (trim stdout) maxSentences)
     | ExecFailed killed message =>
         if killed then Thrown timedOut
         else Thrown (inferenceFailed message)
     end).

(** A field of a request body: missing, a string, or another value with
    its truthiness. *)
Inductive jsvalue : Type :=
| Undefined
| Str (s : jsstring)
| Other (truthy : bool).

Record summarizeBody : Type := mkSummarizeBody {
  text : jsvalue;
  maxSentences : option Z
}.

(** A JSON response: its status and the fields the routes set. *)
Inductive response : Type :=
| SummaryReply (summary timestamp : jsstring)
| ErrorReply (status : Z) (error : jsstring) (message : option jsstring).

Definition invalidText : jsstring :=
  lit "Invalid request. " ++ [quote] ++ lit "text" ++ [quote]
  ++ lit " field is required and must be a string.".

Definition summaryFailed : jsstring :=
  Eval cbv in lit "Failed to generate summary".

(** The handler of [POST /summarize]: the commands run and the response,
    with [now] for [new Date().toISOString()]. *)
Definition postSummarize (body : summarizeBody) (o : execOutcome)
    (now : jsstring) : list jsstring * response :=
  let maxSentences :=
    match maxSentences body with
    | Some n => n
    | None => 3%Z
    end in
  match text body with
  | Str text =>
      if negb (truthy text) then ([], ErrorReply 400 invalidText None)
      else
        match summarizeText text maxSentences o with
        | (commands, Returned summary) =>
            (commands, SummaryReply summary now)
        | (commands, Thrown message) =>
            (commands, ErrorReply 500 summaryFailed (Some message))
        end
  | _ => ([], ErrorReply 400 invalidText None)
  end.

(** *** [SummaryService.generateSummary] *)

(** What [axios] makes of the exchange: a response of the server, or no
    response at all ([sent] tells whether the request left). *)
Inductive exchange : Type :=
| Answered (reply : response) (statusText : jsstring)
| Unanswered (sent : bool) (message : jsstring).

Definition networkError : jsstring :=
  Eval cbv in
    lit "Network error: Could not reach the server. Make sure the backend API is running.".

(** [SummaryService.generateSummary] from the exchange on: what the hook
    awaits. *)
Definition serviceOutcome (x : exchange) : Summaries.outcome :=
  match x with
  | Answered (SummaryReply summary timestamp) _ =>
      Summaries.Resolved (Summaries.mkSummaryResponse summary timestamp)
  | Answered (ErrorReply _ error _) statusText =>
      Summaries.Rejected
        (Some (lit "API Error: "
               ++ template (or_else (Some error) (Some statusText))))
  | Unanswered true _ => Summaries.Rejected (Some networkError)
  | Unanswered false message =>
      Summaries.Rejected (Some (lit "Request error: " ++ message))
  end.

(** The request the service sends for a text: [maxSentences] is 3. *)
Definition summaryRequest (text : jsstring) : summarizeBody :=
  {| text := Str text; maxSentences := Some 3%Z |}.

(** *** [POST /transcribe-file]: checks before the stream *)

Section Files.

(** [path.isAbsolute], [fs.existsSync], [path.join] and [__dirname]. *)
Variable isAbsolute : jsstring -> bool.
Variable existsSync : jsstring -> bool.
Variable pathJoin : list jsstring -> jsstring.
Variable dirname : jsstring.

Definition possiblePaths (filePath : jsstring) : list jsstring :=
  let projectRoot := pathJoin [dirname; lit ".."] in
  [pathJoin [projectRoot; filePath];
   pathJoin [dirname; lit ".."; filePath];
   pathJoin [dirname; filePath];
   filePath].

(** What the handler decides before it opens the upstream socket. *)
Inductive decision : Type :=
| Refuse (status : Z)
| Stream (resolvedPath : jsstring).

Definition transcribeFileChecks (filePath : jsvalue)
    (key : option jsstring) : decision :=
  match filePath with
  | Str filePath =>
      if negb (truthy filePath) then Refuse 400
      else
        let resolved :=
          if isAbsolute filePath then Some filePath
          else List.find existsSync (possiblePaths filePath) in
        match resolved with
        | None => Refuse 404
        | Some resolvedPath =>
            if negb (existsSync resolvedPath) then Refuse 404
            else if negb (truthy_opt key) then Refuse 500
            else Stream resolvedPath
        end
  | _ => Refuse 400
  end.

End Files.

(** *** [POST /transcribe-file]: finality and the timeout *)

(** Whether the handler of ['message'] takes a message for final. *)
Definition fragmentFinal (incoming : option Deepgram.message) : bool :=
  match incoming with
  | None => false
  | Some message =>
      if Deepgram.is_string (Deepgram.type message) "TurnInfo" then
        Deepgram.is_string (Deepgram.event message) "EndOfTurn"
        || (Deepgram.is_string (Deepgram.event message) "Update"
            && Deepgram.above_half
                 (Deepgram.end_of_turn_confidence message))
      else if Deepgram.is_string (Deepgram.type message) "Results" then
        Deepgram.flag (Deepgram.is_final message)
      else false
  end.

Definition timeoutTranscript : jsstring :=
  Eval cbv in lit "Transcription timeout".

(** The timeout of 60 seconds, when no response was sent before. *)
Definition onFileTimeout (st : fileState) : fileResponse :=
  {| response_transcript :=
       if truthy (Server.transcript st) then Server.transcript st
       else timeoutTranscript;
     response_isFinal := isComplete st |}.

End Api.

(** ** Runs of the hooks and of the capture callback *)

Module Runs.

(** One completed activity of the summaries hook: a fire of the
    interval, a run of the effect, a direct call of [generateSummary]
    (each with the way its request ends, if it sends one), or
    [clearSummaries]. *)
Inductive step : Type :=
| Fire (transcript : jsstring) (o : Summaries.outcome) (now : jsstring)
| Effect (transcript : jsstring) (o : Summaries.outcome) (now : jsstring)
| Generate (text : jsstring) (o : Summaries.outcome) (now : jsstring)
| Clear.

(** The request a fire sent, if any, comes back before the next step. *)
Definition settled (fired : Summaries.state * list Summaries.request)
    (o : Summaries.outcome) (now : jsstring) : Summaries.state :=
  match fired with
  | (st, []) => st
  | (st, _ :: _) => Summaries.generateSummary_settle o now st
  end.

Definition apply (s : step) (st : Summaries.state) : Summaries.state :=
  match s with
  | Fire transcript o now =>
      settled (Summaries.intervalFire transcript st) o now
  | Effect transcript o now =>
      settled (Summaries.effectRun transcript st) o now
  | Generate text o now => Summaries.generateSummary text o now st
  | Clear => Summaries.clearSummaries st
  end.

Definition run (steps : list step) (st : Summaries.state)
    : Summaries.state :=
  fold_left (fun acc s => apply s acc) steps st.

(** A series of audio chunks from the recorder, each with the state of
    the sockets when it arrives. *)
Definition onAudioEvents (base64 : jsstring -> list ascii)
    (events : list ((Deepgram.socket -> Server.readyState) * jsstring))
    (st : Deepgram.service) : Deepgram.service * list Capture.call :=
  fold_left
    (fun acc event =>
       let '(st', calls) := Capture.onAudioData base64 (fst event)
                              (snd event) (fst acc) in
       (st', snd acc ++ calls))
    events (st, []).


(** A fragment of the file flow that is final and not blank. *)
Definition completes (incoming : option Deepgram.message) : bool :=
  match Server.fragmentText incoming with
  | Some text => Server.notBlank text && Api.fragmentFinal incoming
  | None => false
  end.

(** A transcript that holds the marker. *)
Definition marked (t : jsstring) : Prop :=
  exists rest, t = committed t ++ interimMarker ++ rest.

End Runs.

(** ** Notions used to state the further properties *)

Module Notions.

(** What the summaries hook shows agrees with its history. *)
Definition consistent (st : Summaries.state) : Prop :=
  Summaries.currentSummary st
  = option_map Summaries.summary (hd_error (Summaries.summaryHistory st))
  /\ Summaries.isLoading st = false.

(** The three components of what [startTranscription] gives. *)
Definition stateAfter
    (r : Deepgram.service * list Capture.call * Capture.startResult)
    : Deepgram.service :=
  fst (fst r).

Definition callsOf
    (r : Deepgram.service * list Capture.call * Capture.startResult)
    : list Capture.call :=
  snd (fst r).

Definition resultOf
    (r : Deepgram.service * list Capture.call * Capture.startResult)
    : Capture.startResult :=
  snd r.

Definition succeeded (r : Capture.startResult) : bool :=
  match r with
  | Capture.StartOk => true
  | Capture.StartFailed _ => false
  end.

(** A call a start may make: none of [stopTranscription], no send, and
    a close of a socket only as the timeout of this connection attempt. *)
Definition startCall (connect : Capture.connectOutcome) (c : Capture.call)
    : Prop :=
  (forall e, c <> Capture.Stopping e)
  /\ (forall s, c = Capture.WsCloseBare s -> connect = Capture.TimedOut s)
  /\ (forall s data, c <> Capture.WsSend s data).

(** A recorder whose [start] throws. *)
Definition recorderBusy (c : Capture.call) : option jsstring :=
  match c with
  | Capture.AudioRecordStart => Some (lit "busy")
  | _ => None
  end.

(** The limit a request asks for: 3 when it names none. *)
Definition limitOf (body : Api.summarizeBody) : Z :=
  match Api.maxSentences body with
  | Some n => n
  | None => 3%Z
  end.

(** A run of the model that [summarizeText] takes for a failure. *)
Definition modelFails (o : Api.execOutcome) : bool :=
  match o with
  | Api.ExecDone stdout stderr => truthy stderr && negb (truthy stdout)
  | Api.ExecFailed _ _ => true
  end.

Definition apiErrorAtHook : jsstring :=
  Eval cbv in lit "API Error: Failed to generate summary".

End Notions.

Import Summaries Server.

(** * Properties *)

(** ** Strings *)

Section StringFacts.

Lemma startsWith_app (p s t : jsstring) :
  startsWith p s = true -> startsWith p (s ++ t) = true.
Proof.
  revert s; induction p as [|a p IH]; intros [|b s] H; simpl in *;
    try reflexivity; try discriminate.
  destruct (ascii_dec a b); [apply IH; exact H | discriminate].
Qed.

Lemma startsWith_self (p r : jsstring) : startsWith p (p ++ r) = true.
Proof.
  induction p as [|a p IH]; simpl; [reflexivity|].
  destruct (ascii_dec a a); [exact IH | congruence].
Qed.

Lemma skipn_own_length (p r : jsstring) :
  skipn (List.length p) (p ++ r) = r.
Proof.
  induction p as [|a p IH]; simpl; [reflexivity | exact IH].
Qed.

Lemma split_head_is_prefix (sep s : jsstring) :
  exists tail, s = split_head sep s ++ tail.
Proof.
  induction s as [|c rest [tail IH]]; simpl.
  - exists []; reflexivity.
  - destruct (startsWith sep (c :: rest)).
    + exists (c :: rest); reflexivity.
    + exists tail; simpl; f_equal; exact IH.
Qed.

(** A separator [sp :: w] whose first character does not come back in
    [w] cannot straddle the place where it is appended. *)
Lemma startsWith_not_across (sp : ascii) (w x y : jsstring) :
  Forall (fun c => c <> sp) w ->
  startsWith w (x ++ sp :: y) = true -> startsWith w x = true.
Proof.
  intros Hw; revert x.
  induction Hw as [|a w' Ha _ IH]; intros x H; [reflexivity|].
  destruct x as [|b x]; simpl in *.
  - destruct (ascii_dec a sp); [contradiction | discriminate].
  - destruct (ascii_dec a b); [apply IH; exact H | discriminate].
Qed.

Variable sp : ascii.
Variable w : jsstring.
Hypothesis sp_fresh : Forall (fun c => c <> sp) w.

Lemma startsWith_after_head (c : ascii) (rest r : jsstring) :
  startsWith (sp :: w) (c :: rest) = false ->
  startsWith (sp :: w)
    (c :: split_head (sp :: w) rest ++ (sp :: w) ++ r) = false.
Proof using sp_fresh.
  intros Hno.
  destruct (startsWith (sp :: w) (c :: _ ++ _)) eqn:E; [|reflexivity].
  exfalso. simpl in E, Hno.
  destruct (ascii_dec sp c); [|discriminate].
  apply (startsWith_not_across sp w _ _ sp_fresh) in E.
  destruct (split_head_is_prefix (sp :: w) rest) as [tail Htail].
  rewrite Htail in Hno.
  rewrite (startsWith_app _ _ tail E) in Hno. discriminate.
Qed.

Lemma split_head_rebuild (s r : jsstring) :
  split_head (sp :: w) (split_head (sp :: w) s ++ (sp :: w) ++ r)
  = split_head (sp :: w) s.
Proof using sp_fresh.
  assert (Hnil : split_head (sp :: w) ((sp :: w) ++ r) = []).
  { change ((sp :: w) ++ r) with (sp :: (w ++ r)).
    cbn [split_head].
    change (sp :: w ++ r) with ((sp :: w) ++ r).
    rewrite startsWith_self. reflexivity. }
  induction s as [|c rest IH]; [exact Hnil|].
  cbn [split_head].
  destruct (startsWith (sp :: w) (c :: rest)) eqn:E; [exact Hnil|].
  change ((c :: split_head (sp :: w) rest) ++ (sp :: w) ++ r)
    with (c :: (split_head (sp :: w) rest ++ (sp :: w) ++ r)).
  cbn [split_head].
  rewrite (startsWith_after_head c rest r E), IH. reflexivity.
Qed.

Lemma after_first_rebuild (s r : jsstring) :
  after_first (sp :: w) (split_head (sp :: w) s ++ (sp :: w) ++ r)
  = Some r.
Proof using sp_fresh.
  assert (Hnil : after_first (sp :: w) ((sp :: w) ++ r) = Some r).
  { change ((sp :: w) ++ r) with (sp :: (w ++ r)).
    cbn [after_first].
    change (sp :: w ++ r) with ((sp :: w) ++ r).
    rewrite startsWith_self. f_equal.
    apply (skipn_own_length (sp :: w) r). }
  induction s as [|c rest IH]; [exact Hnil|].
  cbn [split_head].
  destruct (startsWith (sp :: w) (c :: rest)) eqn:E; [exact Hnil|].
  change ((c :: split_head (sp :: w) rest) ++ (sp :: w) ++ r)
    with (c :: (split_head (sp :: w) rest ++ (sp :: w) ++ r)).
  cbn [after_first].
  rewrite (startsWith_after_head c rest r E), IH. reflexivity.
Qed.

End StringFacts.

(** ** The transcript hook *)

Section TranscriptFacts.

Lemma marker_shape : interimMarker = " "%char :: markerTail.
Proof. reflexivity. Qed.

Lemma marker_space_fresh : Forall (fun c => c <> " "%char) markerTail.
Proof. repeat constructor; discriminate. Qed.

Lemma infix_shape (text : jsstring) :
  interimInfix ++ text = interimMarker ++ " "%char :: text.
Proof. reflexivity. Qed.

Lemma committed_rebuild (t rest : jsstring) :
  committed (committed t ++ interimMarker ++ rest) = committed t.
Proof.
  unfold committed. rewrite marker_shape.
  apply split_head_rebuild, marker_space_fresh.
Qed.

Lemma pending_rebuild (t text : jsstring) :
  pending (committed t ++ interimInfix ++ text) = text.
Proof.
  unfold pending, committed. rewrite infix_shape, marker_shape.
  rewrite after_first_rebuild by apply marker_space_fresh.
  destruct (ascii_dec " " " "); [reflexivity | congruence].
Qed.

Lemma handle_interim (text prev : jsstring) :
  handleTranscriptMessage (interim text) prev
  = committed prev ++ interimInfix ++ text.
Proof. reflexivity. Qed.

Lemma handleAll_app (xs ys : list TranscriptMessage) (prev : jsstring) :
  handleAll (xs ++ ys) prev = handleAll ys (handleAll xs prev).
Proof. unfold handleAll. apply fold_left_app. Qed.

Lemma committed_interims (texts : list jsstring) (prev : jsstring) :
  committed (handleAll (map interim texts) prev) = committed prev.
Proof.
  revert prev; induction texts as [|text texts IH]; intros prev.
  - reflexivity.
  - change (handleAll (map interim (text :: texts)) prev)
      with (handleAll (map interim texts)
              (handleTranscriptMessage (interim text) prev)).
    rewrite IH, handle_interim, infix_shape. apply committed_rebuild.
Qed.

Lemma handle_interims_last (texts : list jsstring) (latest prev : jsstring) :
  handleAll (map interim (texts ++ [latest])) prev
  = committed prev ++ interimInfix ++ latest.
Proof.
  rewrite map_app, handleAll_app.
  change (handleAll (map interim [latest]) ?t)
    with (handleTranscriptMessage (interim latest) t).
  rewrite handle_interim, committed_interims. reflexivity.
Qed.

(** C6.  A stream of interim fragments only never changes the committed
    transcript, and after each of them the transcript is the committed
    text, the marker and the text of the latest fragment alone: the
    pending text is that of the latest fragment, earlier interim text is
    replaced and not kept. *)
Theorem interim_only_keeps_committed_and_replaces_pending
    (prev : jsstring) (texts : list jsstring) (latest : jsstring) :
  committed (handleAll (map interim texts) prev) = committed prev
  /\ handleAll (map interim (texts ++ [latest])) prev
     = committed prev ++ interimInfix ++ latest
  /\ pending (handleAll (map interim (texts ++ [latest])) prev) = latest.
Proof.
  split; [apply committed_interims|].
  split; [apply handle_interims_last|].
  rewrite handle_interims_last. apply pending_rebuild.
Qed.

(** A final fragment that arrives when no interim text is pending is
    joined to the transcript with one space. *)
Lemma handle_final (text prev : jsstring) :
  handleTranscriptMessage (final text) prev = joined prev text.
Proof. reflexivity. Qed.

(** A final fragment that arrives after an interim one is appended
    behind the marker: the committed text stays what it was and the final
    text lands in the pending part. *)
Lemma final_after_interims_stays_pending
    (prev : jsstring) (texts : list jsstring) (latest text : jsstring) :
  let after :=
    handleAll (map interim (texts ++ [latest]) ++ [final text]) prev in
  committed after = committed prev
  /\ pending after = latest ++ lit " " ++ text.
Proof.
  cbv zeta. rewrite handleAll_app, handle_interims_last.
  change (handleAll [final text] ?t)
    with (handleTranscriptMessage (final text) t).
  rewrite handle_final. unfold joined.
  assert (Hne : truthy (committed prev ++ interimInfix ++ latest) = true).
  { destruct (committed prev); reflexivity. }
  rewrite Hne.
  replace ((committed prev ++ interimInfix ++ latest) ++ lit " " ++ text)
    with (committed prev ++ interimInfix ++ (latest ++ lit " " ++ text))
    by (rewrite <- !app_assoc; reflexivity).
  split; [|apply pending_rebuild].
  rewrite infix_shape. apply committed_rebuild.
Qed.

(** C1, on the stream of scenario A.  From an empty transcript, the
    interim fragment "Hello" followed by the final fragment "Hello world"
    leaves the transcript " [interim] Hello Hello world": nothing is
    committed, the final text is pending, and the text the summaries hook
    reads from it is empty. *)
Theorem final_after_interim_is_not_committed :
  let after :=
    handleAll [interim (lit "Hello"); final (lit "Hello world")] [] in
  after = lit " [interim] Hello Hello world"
  /\ committed after = []
  /\ pending after = lit "Hello Hello world"
  /\ stripInterim after = []
  /\ committed after <> joined [] (lit "Hello world").
Proof.
  cbv zeta. repeat split; try reflexivity. discriminate.
Qed.

End TranscriptFacts.

(** ** The summaries hook *)

Section SummaryFacts.

Lemma jsstring_eqb_refl (a : jsstring) : jsstring_eqb a a = true.
Proof.
  unfold jsstring_eqb. destruct (list_eq_dec ascii_dec a a); congruence.
Qed.

Lemma jsstring_eqb_eq (a b : jsstring) : jsstring_eqb a b = true <-> a = b.
Proof.
  unfold jsstring_eqb. destruct (list_eq_dec ascii_dec a b); split;
    congruence.
Qed.

Lemma truthy_trim (s : jsstring) : truthy (trim s) = true -> truthy s = true.
Proof. destruct s; [discriminate | reflexivity]. Qed.

(** What a call of [generateSummary] does before its [await], when the
    text is not blank. *)
Lemma generateSummary_call_issues (text : jsstring) (st : state) :
  truthy (trim text) = true ->
  generateSummary_call text st
  = ({| currentSummary := currentSummary st;
        summaryHistory := summaryHistory st;
        isLoading := true; error := None;
        lastTranscriptRef := lastTranscriptRef st |},
     [Summarize text]).
Proof.
  intros H. unfold generateSummary_call.
  rewrite H, (truthy_trim _ H). reflexivity.
Qed.

(** The two ways a fire goes: its guard fails, or it calls
    [generateSummary] on a text that is not blank. *)
Ltac fire_cases transcript :=
  let E := fresh "E" in
  unfold intervalFire;
  destruct (truthy (trim (stripInterim transcript))) eqn:E;
    [|reflexivity];
  destruct (jsstring_eqb _ _); [reflexivity|];
  cbn [andb negb]; rewrite (generateSummary_call_issues _ _ E);
  reflexivity.

(** C2, as the code has it.  A fire whose text equals the baseline held
    in [lastTranscriptRef] issues no request.  A fire issues a request
    exactly when its text is not blank and differs from the baseline, and
    then the text becomes the baseline.  A summarisation that succeeds
    resets the baseline to the empty string; one that fails leaves it. *)
Theorem debounce_against_baseline
    (transcript : jsstring) (st : state)
    (response : SummaryResponse) (message : option jsstring)
    (now : jsstring) :
  let text := stripInterim transcript in
  snd (intervalFire transcript (set_lastTranscriptRef text st)) = []
  /\ snd (intervalFire transcript st)
     = (if truthy (trim text)
           && negb (jsstring_eqb text (lastTranscriptRef st))
        then [Summarize text] else [])
  /\ lastTranscriptRef (fst (intervalFire transcript st))
     = (if truthy (trim text)
           && negb (jsstring_eqb text (lastTranscriptRef st))
        then text else lastTranscriptRef st)
  /\ lastTranscriptRef (generateSummary_settle (Resolved response) now st)
     = []
  /\ lastTranscriptRef (generateSummary_settle (Rejected message) now st)
     = lastTranscriptRef st.
Proof.
  cbv zeta. repeat split.
  - unfold intervalFire. cbn [lastTranscriptRef set_lastTranscriptRef].
    rewrite jsstring_eqb_refl, andb_false_r. reflexivity.
  - fire_cases transcript.
  - fire_cases transcript.
Qed.

(** C2 fails as stated: the text of the last summarisation that
    succeeded is not the baseline.  The first fire on "hello" issues a
    request; the request succeeds, which clears the baseline; the next
    fire on the same transcript issues the same request again. *)
Lemma same_text_is_summarised_again :
  let hello := lit "hello" in
  let response := mkSummaryResponse (lit "A greeting.") (lit "t1") in
  let fired := intervalFire hello initial in
  let settled := generateSummary_settle (Resolved response) (lit "1") (fst fired) in
  snd fired = [Summarize hello]
  /\ lastTranscriptRef (fst fired) = hello
  /\ lastTranscriptRef settled = []
  /\ lastTranscriptRef settled <> hello
  /\ snd (intervalFire hello settled) = [Summarize hello]
  /\ snd (intervalFire hello settled) <> [].
Proof.
  cbv zeta. repeat split; try reflexivity; discriminate.
Qed.

(** C9.  A summarisation that fails leaves the current summary and the
    history as they were and records an error; this holds for the
    [catch] path alone and for a whole run of [generateSummary].  The
    history changes only when the request succeeds, and then the new item
    is put in front. *)
Theorem failed_summary_changes_nothing_but_error
    (text : jsstring) (message : option jsstring) (o : outcome)
    (now : jsstring) (st : state) :
  let failed := generateSummary_settle (Rejected message) now st in
  let run := generateSummary text (Rejected message) now st in
  currentSummary failed = currentSummary st
  /\ summaryHistory failed = summaryHistory st
  /\ (exists e, error failed = Some e /\ truthy e = true)
  /\ currentSummary run = currentSummary st
  /\ summaryHistory run = summaryHistory st
  /\ summaryHistory (generateSummary_settle o now st)
     = match o with
       | Resolved response =>
           {| id := now; summary := response_summary response;
              timestamp := response_timestamp response |}
           :: summaryHistory st
       | Rejected _ => summaryHistory st
       end.
Proof.
  cbv zeta. repeat split.
  - cbn [generateSummary_settle error]. unfold or_else.
    destruct (truthy_opt message) eqn:E.
    + destruct message as [e|]; [|discriminate]. exists e. auto.
    + exists failureMessage. auto.
  - unfold generateSummary, generateSummary_call.
    destruct (negb (truthy text) || negb (truthy (trim text)));
      reflexivity.
  - unfold generateSummary, generateSummary_call.
    destruct (negb (truthy text) || negb (truthy (trim text)));
      reflexivity.
  - destruct o; reflexivity.
Qed.

End SummaryFacts.

(** ** The streaming client *)

Section ClientFacts.

Import Deepgram.


Lemma results_is_not_turnInfo (v : option jsstring) :
  is_string v "TurnInfo" = true -> is_string v "Results" = false.
Proof.
  destruct v as [s|]; [|discriminate]. unfold is_string.
  intros H. apply jsstring_eqb_eq in H. subst s. reflexivity.
Qed.







(** The same update with confidence 0.5 is interim: the threshold is
    strict. *)
Lemma update_at_threshold_is_interim :
  handleDeepgramMessage
    {| type := Some (lit "TurnInfo"); transcript := Some (lit "Hello");
       event := Some (lit "Update"); end_of_turn_confidence := Some (1 # 2)%Q;
       is_final := None; channel_transcript := None |}
    recordingSession
  = Some (7, mkTranscriptMessage (lit "Hello") false).
Proof. reflexivity. Qed.

Lemma stop_when_not_recording (throws : effect -> bool) (st : service) :
  isRecording st = false -> stopTranscription throws st = (st, []).
Proof. intros H. unfold stopTranscription. rewrite H. reflexivity. Qed.

Lemma stopped_after_stop (throws : effect -> bool) (st : service) :
  isRecording (fst (stopTranscription throws st)) = false.
Proof.
  unfold stopTranscription.
  destruct (isRecording st) eqn:Hrec; [|exact Hrec].
  cbn [negb useTestAudio].
  destruct (useTestAudio st).
  - unfold stopTestAudio. cbn [testAudioInterval].
    destruct (testAudioInterval st); cbn [ws];
      destruct (ws st); try destruct (throws _); reflexivity.
  - unfold stopMicrophoneAudio. cbn [audioRecordInitialized].
    destruct (audioRecordInitialized st);
      [destruct (throws AudioRecordStop)|]; cbn [ws];
      destruct (ws st); try destruct (throws (WsClose _ _ _));
      reflexivity.
Qed.

(** C8.  A second [stopTranscription] right after a first one changes no
    field of the session and calls nothing (no second close of the
    socket, no second stop of the audio source), whatever the first one
    did; and on a session that is not recording [stopTranscription]
    changes nothing and calls nothing. *)
Theorem stop_is_idempotent
    (throws1 throws2 : effect -> bool) (st : service)
    (s : option socket) (cb : option callback) (n : nat)
    (t : option timer) (test initialized : bool) :
  let once := stopTranscription throws1 st in
  let stopped := mkService s false cb n t test initialized in
  stopTranscription throws2 (fst once) = (fst once, [])
  /\ fst (stopTranscription throws2 (fst once)) = fst once
  /\ stopTranscription throws2 stopped = (stopped, []).
Proof.
  cbv zeta.
  assert (H := stop_when_not_recording throws2 _
                 (stopped_after_stop throws1 st)).
  rewrite H. repeat split.
Qed.

End ClientFacts.

(** ** The proxy *)

Section ProxyFacts.

(** C5.  When neither [DEEPGRAM_API_KEY] nor [DEEPGRAM_API_Key] is in the
    environment, the handler of a new connection only closes the client
    socket, with code 1011 and the reason "Server configuration error:
    Missing API key"; it opens no upstream connection.  The status
    differs from the two other statuses the proxy closes a client with. *)
Theorem missing_key_closes_client
    (env : gmap string jsstring) (params : list (jsstring * jsstring)) :
  env !! "DEEPGRAM_API_KEY"%string = None ->
  env !! "DEEPGRAM_API_Key"%string = None ->
  onConnection env params = [CloseClient (Some missingKeyStatus)]
  /\ (forall url authorization,
        ~ In (ConnectUpstream url authorization) (onConnection env params))
  /\ onUpstreamError OPEN <> [CloseClient (Some missingKeyStatus)]
  /\ onUpstreamClose OPEN <> [CloseClient (Some missingKeyStatus)].
Proof.
  intros H1 H2.
  assert (E : onConnection env params = [CloseClient (Some missingKeyStatus)]).
  { unfold onConnection, DEEPGRAM_API_KEY. rewrite H1, H2. reflexivity. }
  rewrite E. repeat split; try discriminate.
  intros url authorization [H | []]. discriminate.
Qed.

Lemma missing_key_closes_client_witness :
  onConnection ∅ [(lit "model", lit "nova-3")]
  = [CloseClient (Some missingKeyStatus)]
  /\ (forall url authorization,
        ~ In (ConnectUpstream url authorization)
             (onConnection ∅ [(lit "model", lit "nova-3")]))
  /\ onUpstreamError OPEN <> [CloseClient (Some missingKeyStatus)]
  /\ onUpstreamClose OPEN <> [CloseClient (Some missingKeyStatus)].
Proof.
  apply (missing_key_closes_client ∅ [(lit "model", lit "nova-3")]);
    reflexivity.
Defined.

(** With a key in the environment the same handler connects upstream,
    with the parameters of the request and the key in the header. *)
Lemma key_present_connects :
  onConnection {[ "DEEPGRAM_API_KEY"%string := lit "k" ]}
               [(lit "model", lit "nova-3")]
  = [ConnectUpstream
       (lit "wss://api.deepgram.com/v1/listen?encoding=linear16&sample_rate=16000&channels=1&model=nova-3&language=en&punctuate=true&interim_results=true")
       (lit "Token k")].
Proof. vm_compute. reflexivity. Qed.

(** What the client-to-upstream handler does, by the shape of what it
    receives.  While the upstream socket is open, every message of the
    client sends exactly one frame upstream.  A binary frame goes out as
    one binary frame with the same bytes, untouched.  A string goes out
    unchanged as a text frame when its trimmed text starts with a brace,
    and otherwise base64-decoded as a binary frame. *)
Lemma client_message_forwarding
    (utf8 base64 : jsstring -> list ascii)
    (bytes : list ascii) (text : jsstring) (data : wsData)
    (isBinary : bool) :
  List.length (onClientMessage utf8 base64 OPEN data isBinary) = 1
  /\ onClientMessage utf8 base64 OPEN (DBuffer bytes) true
     = [mkFrame bytes true]
  /\ onClientMessage utf8 base64 OPEN (DBytes bytes) true
     = [mkFrame bytes true]
  /\ transparent utf8 base64 (DBuffer bytes) true
  /\ transparent utf8 base64 (DBytes bytes) true
  /\ onClientMessage utf8 base64 OPEN (DString text) false
     = (if startsWith (lit "{") (trim text)
        then [mkFrame text false]
        else [mkFrame (base64 text) true]).
Proof.
  split; [|repeat split].
  unfold onClientMessage. cbn [is_open].
  destruct data as [b | t | b], isBinary; try reflexivity.
  cbn [orb isBuffer]. destruct (startsWith (lit "{") (trim t)); reflexivity.
Qed.

(** Scenario B: a binary frame of 3200 bytes goes upstream as one binary
    frame of the same 3200 bytes. *)
Lemma binary_frame_3200 (utf8 base64 : jsstring -> list ascii) :
  let audio := repeat zero 3200 in
  onClientMessage utf8 base64 OPEN (DBuffer audio) true
  = [mkFrame audio true]
  /\ List.length audio = 3200.
Proof. cbv zeta. split; [reflexivity | apply repeat_length]. Qed.

(** A string that does not start with a brace goes out base64-decoded
    and binary. *)
Lemma client_text_string_goes_binary
    (utf8 base64 : jsstring -> list ascii) :
  onClientMessage utf8 base64 OPEN (DString (lit "ok")) false
  = [mkFrame (base64 (lit "ok")) true].
Proof. reflexivity. Qed.

(** A buffer is sent as binary even when the frame it came in was a text
    frame. *)
Lemma client_text_buffer_goes_binary
    (utf8 base64 : jsstring -> list ascii) (bytes : list ascii) :
  onClientMessage utf8 base64 OPEN (DBuffer bytes) false
  = [mkFrame bytes true].
Proof. reflexivity. Qed.

(** The other direction keeps the nature of every frame. *)
Lemma upstream_message_forwarding (data : wsData) (isBinary : bool) :
  onUpstreamMessage OPEN data isBinary = [mkFrame (content data) isBinary].
Proof. reflexivity. Qed.

(** C3.  The socket library hands every frame of the client to the
    handler as a buffer, with [isBinary] telling its nature.  A text
    frame, such as the control message [keepAlive], therefore takes the
    first branch and goes upstream as one binary frame: its bytes are
    kept, its nature is not, so the relay is not transparent for it, and
    this holds for the bytes of every text frame.  The same message as a
    string would take the branch that forwards JSON as text, and the
    handler of the other direction forwards the same frame as text. *)
Theorem client_text_frame_goes_binary
    (utf8 base64 : jsstring -> list ascii) (bytes : list ascii) :
  onClientMessage utf8 base64 OPEN (DBuffer keepAlive) false
  = [mkFrame keepAlive true]
  /\ ~ transparent utf8 base64 (DBuffer keepAlive) false
  /\ onClientMessage utf8 base64 OPEN (DString keepAlive) false
     = [mkFrame keepAlive false]
  /\ onUpstreamMessage OPEN (DBuffer keepAlive) false
     = [mkFrame keepAlive false]
  /\ onClientMessage utf8 base64 OPEN (DBuffer bytes) false
     = [mkFrame bytes true]
  /\ ~ transparent utf8 base64 (DBuffer bytes) false.
Proof.
  split; [reflexivity|]. split; [intros H; discriminate H|].
  split; [reflexivity|]. split; [reflexivity|]. split; [reflexivity|].
  unfold transparent. cbn. intros H. discriminate H.
Qed.

End ProxyFacts.

(** ** File transcription *)

Section FileFacts.

Lemma onFileMessage_transcript (m : option Deepgram.message)
    (st : fileState) (acc : option jsstring) (d : jsstring) :
  transcript st = fromOption acc d ->
  transcript (onFileMessage m st)
  = fromOption (keepLatest notBlank acc m) d.
Proof.
  intros H. unfold keepLatest, fragmentText, onFileMessage, notBlank.
  destruct m as [message|]; [|exact H].
  destruct (Deepgram.is_string (Deepgram.type message) "TurnInfo") eqn:Ety.
  - destruct (Deepgram.transcript message) as [text|].
    + cbn [andb]. destruct (truthy (trim text)); [|exact H].
      destruct (_ || _); reflexivity.
    + cbn [andb]. rewrite (results_is_not_turnInfo _ Ety). exact H.
  - cbn [andb].
    destruct (Deepgram.is_string (Deepgram.type message) "Results");
      [|exact H].
    cbn [andb].
    destruct (Deepgram.channel_transcript message) as [text|];
      [|exact H].
    cbn [truthy_opt].
    destruct (truthy text) eqn:Et.
    + destruct (truthy (trim text)); [|exact H].
      destruct (Deepgram.flag _); reflexivity.
    + destruct text; [|discriminate]. exact H.
Qed.

Lemma onFileMessages_transcript (incoming : list (option Deepgram.message))
    (st : fileState) (acc : option jsstring) (d : jsstring) :
  transcript st = fromOption acc d ->
  transcript (onFileMessages incoming st)
  = fromOption (fold_left (keepLatest notBlank) incoming acc) d.
Proof.
  revert st acc; induction incoming as [|m rest IH]; intros st acc H.
  - exact H.
  - apply IH, onFileMessage_transcript, H.
Qed.

Lemma kept_fragment_satisfies (keep : jsstring -> bool)
    (incoming : list (option Deepgram.message)) (acc : option jsstring)
    (text : jsstring) :
  (forall t, acc = Some t -> keep t = true) ->
  fold_left (keepLatest keep) incoming acc = Some text ->
  keep text = true.
Proof.
  revert acc; induction incoming as [|m rest IH]; intros acc Hacc H.
  - apply Hacc, H.
  - apply (IH (keepLatest keep acc m)); [|exact H].
    intros t. unfold keepLatest.
    destruct (fragmentText m) as [u|]; [|apply Hacc].
    destruct (keep u) eqn:E; [|apply Hacc].
    intros [= <-]. exact E.
Qed.

(** C10, as the code has it.  Every fragment whose text is not blank,
    interim or final, replaces the transcript variable, so the response
    sent when the upstream socket closes carries the text of the last
    fragment that was not blank, and "No transcript received" when there
    was none: never a concatenation of fragments. *)
Theorem file_transcript_is_last_fragment
    (incoming : list (option Deepgram.message)) :
  response_transcript (onFileClose (onFileMessages incoming fileStart))
  = fromOption (lastFragment notBlank incoming) noTranscript.
Proof.
  unfold onFileClose. cbn [response_transcript].
  rewrite (onFileMessages_transcript incoming fileStart None [])
    by reflexivity.
  change (fold_left (keepLatest notBlank) incoming None)
    with (lastFragment notBlank incoming).
  destruct (lastFragment notBlank incoming) as [text|] eqn:E;
    [|reflexivity].
  cbn [fromOption].
  assert (H : notBlank text = true).
  { apply (kept_fragment_satisfies notBlank incoming None); [|exact E].
    discriminate. }
  rewrite (truthy_trim _ H). reflexivity.
Qed.

(** C10 fails as stated: a fragment whose text is one space is not
    empty, yet it does not replace the transcript.  After "hello" and
    " " the response carries "hello", not the text of the last fragment
    that is not empty. *)
Lemma blank_fragment_does_not_replace :
  let incoming := [turnUpdate "hello"; turnUpdate " "] in
  response_transcript (onFileClose (onFileMessages incoming fileStart))
  = lit "hello"
  /\ lastFragment truthy incoming = Some (lit " ")
  /\ Some (response_transcript
             (onFileClose (onFileMessages incoming fileStart)))
     <> lastFragment truthy incoming.
Proof.
  cbv zeta. repeat split; discriminate.
Qed.

(** Two final fragments: the response carries the second one only. *)
Lemma final_fragments_are_not_concatenated :
  let endOfTurn (text : string) :=
    Some {| Deepgram.type := Some (lit "TurnInfo");
            Deepgram.transcript := Some (lit text);
            Deepgram.event := Some (lit "EndOfTurn");
            Deepgram.end_of_turn_confidence := None;
            Deepgram.is_final := None;
            Deepgram.channel_transcript := None |} in
  onFileClose
    (onFileMessages [endOfTurn "Good morning."; endOfTurn "How are you?"]
       fileStart)
  = {| response_transcript := lit "How are you?";
       response_isFinal := true |}.
Proof. reflexivity. Qed.

End FileFacts.

(** ** The sentence limit *)

Section SentenceFacts.

Lemma terminal_is_not_space (c : ascii) :
  is_terminal c = true -> is_space c = false.
Proof.
  unfold is_terminal.
  destruct (ascii_dec c "."); [subst; reflexivity|].
  destruct (ascii_dec c "!"); [subst; reflexivity|].
  destruct (ascii_dec c "?"); [subst; reflexivity | discriminate].
Qed.

Lemma dropWhile_length (p : ascii -> bool) (s : jsstring) :
  List.length (dropWhile p s) <= List.length s.
Proof.
  induction s as [|c s IH]; simpl; [lia|].
  destruct (p c); simpl; lia.
Qed.

Lemma dropWhile_app_stop (p : ascii -> bool) (u w : jsstring)
    (d : ascii) (r : jsstring) :
  dropWhile p u = d :: r -> dropWhile p (u ++ w) = d :: r ++ w.
Proof.
  induction u as [|c u IH]; simpl; [discriminate|].
  destruct (p c); [exact IH|].
  intros [= <- <-]. reflexivity.
Qed.

Lemma dropWhile_app_all (p : ascii -> bool) (u w : jsstring) :
  dropWhile p u = [] -> dropWhile p (u ++ w) = dropWhile p w.
Proof.
  induction u as [|c u IH]; simpl; [reflexivity|].
  destruct (p c); [exact IH | discriminate].
Qed.

Lemma dropWhile_not_head (p : ascii -> bool) (s : jsstring) :
  match dropWhile p s with
  | d :: _ => p d = false
  | [] => True
  end.
Proof.
  induction s as [|c s IH]; simpl; [exact I|].
  destruct (p c) eqn:E; [exact IH | exact E].
Qed.

Lemma matchSeparator_shorter (s after : jsstring) :
  matchSeparator s = Some after -> List.length after < List.length s.
Proof.
  destruct s as [|c s]; [discriminate|].
  unfold matchSeparator.
  destruct (is_terminal c) eqn:Ec; [|discriminate].
  cbn [dropWhile]. rewrite Ec.
  destruct (dropWhile is_terminal s) as [|d rest] eqn:E; [discriminate|].
  destruct (is_space d); [|discriminate].
  intros [= <-].
  pose proof (dropWhile_length is_space rest).
  pose proof (dropWhile_length is_terminal s) as H1.
  rewrite E in H1. cbn [List.length] in *. lia.
Qed.

Lemma matchSeparator_clean (s after : jsstring) :
  matchSeparator s = Some after -> startsClean after.
Proof.
  destruct s as [|c s]; [discriminate|].
  unfold matchSeparator.
  destruct (is_terminal c); [|discriminate].
  destruct (dropWhile is_terminal (c :: s)) as [|d rest]; [discriminate|].
  destruct (is_space d); [|discriminate].
  intros [= <-]. apply (dropWhile_not_head is_space rest).
Qed.

Lemma splitLoop_enough (n : nat) :
  forall (fuel1 fuel2 : nat) (piece s : jsstring),
    List.length s <= n ->
    List.length s <= fuel1 -> List.length s <= fuel2 ->
    splitLoop fuel1 piece s = splitLoop fuel2 piece s.
Proof.
  induction n as [|n IH]; intros fuel1 fuel2 piece s Hn H1 H2.
  - destruct s; [|cbn in Hn; lia].
    destruct fuel1, fuel2; reflexivity.
  - destruct s as [|c rest]; [destruct fuel1, fuel2; reflexivity|].
    cbn [List.length] in *.
    destruct fuel1 as [|fuel1]; [lia|].
    destruct fuel2 as [|fuel2]; [lia|].
    cbn [splitLoop].
    destruct (matchSeparator (c :: rest)) as [after|] eqn:E.
    + apply matchSeparator_shorter in E. cbn [List.length] in E.
      f_equal. apply IH; lia.
    + apply IH; lia.
Qed.

Lemma split_nil (piece : jsstring) : splitFrom piece [] = [rev piece].
Proof. reflexivity. Qed.

Lemma split_cons (piece : jsstring) (c : ascii) (rest : jsstring) :
  splitFrom piece (c :: rest)
  = match matchSeparator (c :: rest) with
    | Some after => rev piece :: splitFrom [] after
    | None => splitFrom (c :: piece) rest
    end.
Proof.
  unfold splitFrom. cbn [List.length splitLoop].
  destruct (matchSeparator (c :: rest)) as [after|] eqn:E;
    [|reflexivity].
  apply matchSeparator_shorter in E. cbn [List.length] in E.
  f_equal.
  apply (splitLoop_enough (List.length rest)); lia.
Qed.

Lemma splitSentences_split (text : jsstring) :
  splitSentences text = splitFrom [] text.
Proof. reflexivity. Qed.

Lemma stuck_no_match (u w : jsstring) :
  stuck u = true -> matchSeparator (u ++ w) = None.
Proof.
  destruct u as [|c u]; [discriminate|].
  unfold stuck, matchSeparator. cbn [app].
  destruct (is_terminal c); [|reflexivity].
  destruct (dropWhile is_terminal (c :: u)) as [|d r] eqn:E;
    [discriminate|].
  change (c :: u ++ w) with ((c :: u) ++ w).
  rewrite (dropWhile_app_stop _ _ w _ _ E).
  destruct (is_space d); [discriminate | reflexivity].
Qed.

Lemma no_match_before_separator (u v after : jsstring) :
  u <> [] ->
  matchSeparator v = Some after ->
  matchSeparator (u ++ v) = None ->
  stuck u = true.
Proof.
  intros Hu Hv Huv.
  destruct u as [|c u]; [congruence|].
  unfold stuck. unfold matchSeparator in Huv. cbn [app] in Huv.
  destruct (is_terminal c) eqn:Ec; [|reflexivity].
  change (c :: u ++ v) with ((c :: u) ++ v) in Huv.
  destruct (dropWhile is_terminal (c :: u)) as [|d r] eqn:E.
  - exfalso.
    rewrite (dropWhile_app_all _ _ v E) in Huv.
    destruct v as [|e v]; [discriminate|].
    unfold matchSeparator in Hv.
    destruct (is_terminal e); [|discriminate].
    destruct (dropWhile is_terminal (e :: v)) as [|d r];
      [discriminate|].
    destruct (is_space d); discriminate.
  - rewrite (dropWhile_app_stop _ _ v _ _ E) in Huv.
    destruct (is_space d); [discriminate | reflexivity].
Qed.

Lemma quiet_snoc (p : jsstring) (c : ascii) (rest : jsstring) :
  quiet p (c :: rest) ->
  matchSeparator (c :: rest) = None ->
  quiet (p ++ [c]) rest.
Proof.
  intros Hq Hc. induction p as [|d p IH].
  - cbn. split; [exact Hc | exact I].
  - destruct Hq as [Hd Hq]. cbn [app quiet]. split.
    + change (d :: p ++ [c]) with ((d :: p) ++ [c]).
      rewrite <- app_assoc. exact Hd.
    + apply IH, Hq.
Qed.

Lemma quiet_unbroken (p v after : jsstring) :
  matchSeparator v = Some after -> quiet p v -> unbroken p = true.
Proof.
  intros Hv. induction p as [|d p IH]; intros Hq; [reflexivity|].
  destruct Hq as [Hd Hq]. cbn [unbroken].
  rewrite (no_match_before_separator (d :: p) v after); try assumption;
    [|discriminate].
  apply IH, Hq.
Qed.

(** The loop walks through an unbroken piece without closing it. *)
Lemma split_through (p : jsstring) :
  unbroken p = true ->
  forall piece w, splitFrom piece (p ++ w) = splitFrom (rev p ++ piece) w.
Proof.
  induction p as [|c p IH]; intros Hp piece w; [reflexivity|].
  cbn [unbroken] in Hp. apply andb_prop in Hp as [Hc Hp].
  cbn [app]. rewrite split_cons.
  change (c :: p ++ w) with ((c :: p) ++ w).
  rewrite (stuck_no_match _ w Hc), (IH Hp).
  cbn [rev]. rewrite <- app_assoc. reflexivity.
Qed.

Lemma split_not_empty (s piece : jsstring) : splitFrom piece s <> [].
Proof.
  unfold splitFrom. destruct s as [|c rest]; [discriminate|].
  cbn [List.length splitLoop].
  destruct (matchSeparator (c :: rest)); [discriminate|].
  generalize (c :: piece). generalize (List.length rest).
  induction rest as [|d rest IH]; intros fuel q.
  - destruct fuel; discriminate.
  - destruct fuel as [|fuel]; [discriminate|].
    cbn [splitLoop].
    destruct (matchSeparator (d :: rest)); [discriminate | apply IH].
Qed.

(** Every piece that a separator closes is unbroken. *)
Lemma split_closed_pieces (n : nat) :
  forall (s piece : jsstring),
    List.length s <= n ->
    quiet (rev piece) s ->
    Forall (fun p => unbroken p = true) (removelast (splitFrom piece s)).
Proof.
  induction n as [|n IH]; intros s piece Hn Hq.
  - destruct s; [constructor | cbn in Hn; lia].
  - destruct s as [|c rest]; [constructor|].
    cbn [List.length] in Hn. rewrite split_cons.
    destruct (matchSeparator (c :: rest)) as [after|] eqn:E.
    + pose proof (matchSeparator_shorter _ _ E) as Hlen.
      cbn [List.length] in Hlen.
      pose proof (split_not_empty after []) as Hne.
      destruct (splitFrom [] after) as [|q qs] eqn:Es; [congruence|].
      change (removelast (rev piece :: q :: qs))
        with (rev piece :: removelast (q :: qs)).
      constructor.
      * apply (quiet_unbroken _ _ _ E Hq).
      * rewrite <- Es. apply IH; [lia | exact I].
    + apply IH; [lia|]. cbn [rev]. apply quiet_snoc; assumption.
Qed.

(** The first piece starts with what was read of it before. *)
Lemma split_first_piece (s piece : jsstring) :
  exists x y others, splitFrom piece s = (rev piece ++ x) :: others
                     /\ s = x ++ y.
Proof.
  revert piece; induction s as [|c rest IH]; intros piece.
  - exists [], [], []. rewrite app_nil_r. split; reflexivity.
  - rewrite split_cons.
    destruct (matchSeparator (c :: rest)) as [after|].
    + exists [], (c :: rest), (splitFrom [] after).
      rewrite app_nil_r. split; reflexivity.
    + destruct (IH (c :: piece)) as (x & y & others & Hs & Hrest).
      exists (c :: x), y, others. split.
      * rewrite Hs. cbn [rev]. rewrite <- app_assoc. reflexivity.
      * cbn [app]. f_equal. exact Hrest.
Qed.

(** Every piece after the first one starts clean. *)
Lemma split_later_pieces (n : nat) :
  forall (s piece : jsstring),
    List.length s <= n ->
    Forall startsClean (tl (splitFrom piece s)).
Proof.
  induction n as [|n IH]; intros s piece Hn.
  - destruct s; [constructor | cbn in Hn; lia].
  - destruct s as [|c rest]; [constructor|].
    cbn [List.length] in Hn. rewrite split_cons.
    destruct (matchSeparator (c :: rest)) as [after|] eqn:E.
    + pose proof (matchSeparator_shorter _ _ E) as Hlen.
      cbn [List.length] in Hlen.
      pose proof (matchSeparator_clean _ _ E) as Hclean.
      cbn [tl].
      destruct (split_first_piece after [])
        as (x & y & others & Hs & Hafter).
      pose proof (IH after [] ltac:(lia)) as Htl.
      rewrite Hs in *. cbn [tl rev app] in *.
      constructor; [|exact Htl].
      subst after. destruct x; [exact I | exact Hclean].
    + apply IH. lia.
Qed.

(** *** Blank strings *)

Lemma truthy_trimStart (s : jsstring) :
  truthy (trimStart s) = existsb visible s.
Proof.
  induction s as [|c s IH]; [reflexivity|].
  cbn [trimStart existsb]. unfold visible at 1.
  destruct (is_space c); [exact IH | reflexivity].
Qed.

Lemma visible_trimStart (s : jsstring) :
  existsb visible (trimStart s) = existsb visible s.
Proof.
  induction s as [|c s IH]; [reflexivity|].
  cbn [trimStart]. destruct (is_space c) eqn:E; [|reflexivity].
  cbn [existsb]. unfold visible at 2. rewrite E. exact IH.
Qed.

Lemma truthy_rev (s : jsstring) : truthy (rev s) = truthy s.
Proof.
  destruct s as [|c s]; [reflexivity|].
  cbn [rev]. destruct (rev s); reflexivity.
Qed.

Lemma visible_rev (s : jsstring) :
  existsb visible (rev s) = existsb visible s.
Proof.
  induction s as [|c s IH]; [reflexivity|].
  cbn [rev existsb]. rewrite existsb_app, IH. cbn [existsb].
  rewrite orb_false_r. apply orb_comm.
Qed.

Lemma notBlank_visible (s : jsstring) :
  notBlank s = existsb visible s.
Proof.
  unfold notBlank, trim, trimEnd.
  rewrite truthy_rev, truthy_trimStart, visible_rev.
  apply visible_trimStart.
Qed.

Lemma notBlank_not_empty (s : jsstring) : notBlank s = true -> s <> [].
Proof. intros H ->. discriminate. Qed.

(** *** Lists of pieces *)

Lemma filter_keeps_tail_property {A : Type} (P : A -> Prop)
    (f : A -> bool) (l : list A) :
  Forall P (tl l) -> Forall P (tl (List.filter f l)).
Proof.
  destruct l as [|a l]; [constructor|].
  cbn [tl List.filter]. intros H.
  assert (Hf : Forall P (List.filter f l)).
  { apply Forall_forall. intros x Hx. apply filter_In in Hx as [Hx _].
    revert x Hx. apply Forall_forall, H. }
  destruct (f a); [exact Hf|].
  destruct (List.filter f l); [constructor|].
  inversion Hf; assumption.
Qed.

Lemma firstn_keeps_tail_property {A : Type} (P : A -> Prop)
    (n : nat) (l : list A) :
  Forall P (tl l) -> Forall P (tl (firstn n l)).
Proof.
  destruct n as [|n]; [constructor|].
  destruct l as [|a l]; [constructor|].
  cbn [firstn tl]. apply Forall_take.
Qed.

Lemma firstn_filter_before_last {A : Type} (P : A -> Prop)
    (f : A -> bool) (l : list A) :
  Forall P (removelast l) ->
  forall n, n < List.length (List.filter f l) ->
  Forall P (firstn n (List.filter f l)).
Proof.
  induction l as [|a l IH]; intros H n Hn; [cbn in Hn; lia|].
  destruct l as [|b l].
  - cbn [List.filter] in *. destruct (f a); cbn [List.length] in Hn.
    + replace n with 0 by lia. constructor.
    + lia.
  - change (removelast (a :: b :: l)) with (a :: removelast (b :: l)) in H.
    inversion H as [|? ? Ha Hrest]; subst.
    change (List.filter f (a :: b :: l))
      with (if f a then a :: List.filter f (b :: l)
            else List.filter f (b :: l)) in *.
    destruct (f a).
    + destruct n as [|n]; [constructor|].
      cbn [firstn]. constructor; [exact Ha|].
      apply IH; [exact Hrest|]. cbn [List.length] in Hn. lia.
    + apply IH; assumption.
Qed.

(** *** Joining the pieces again *)

Lemma unbroken_last (p : jsstring) :
  unbroken p = true -> p <> [] ->
  exists q c, p = q ++ [c] /\ is_terminal c = false.
Proof.
  induction p as [|c p IH]; intros Hp Hne; [congruence|].
  cbn [unbroken] in Hp. apply andb_prop in Hp as [Hc Hp].
  destruct p as [|d p].
  - exists [], c. split; [reflexivity|].
    unfold stuck in Hc. cbn [dropWhile] in Hc.
    destruct (is_terminal c); [discriminate | reflexivity].
  - destruct (IH Hp ltac:(discriminate)) as (q & e & Hq & He).
    exists (c :: q), e. split; [|exact He].
    cbn [app]. f_equal. exact Hq.
Qed.

Lemma endsWithTerminal_app (x y : jsstring) :
  y <> [] -> endsWithTerminal (x ++ y) = endsWithTerminal y.
Proof.
  intros Hy. unfold endsWithTerminal. rewrite rev_app_distr.
  destruct (rev y) as [|c r] eqn:E; [|reflexivity].
  apply (f_equal (@rev ascii)) in E. rewrite rev_involutive in E.
  contradiction.
Qed.

Lemma join_not_empty (sep p : jsstring) (rest : list jsstring) :
  p <> [] -> join sep (p :: rest) <> [].
Proof.
  intros Hp. destruct p as [|c p]; [congruence|].
  destruct rest; cbn [join app]; discriminate.
Qed.

Lemma join_ends_open (pieces : list jsstring) :
  pieces <> [] ->
  Forall (fun p => unbroken p = true) pieces ->
  Forall (fun p => notBlank p = true) pieces ->
  endsWithTerminal (join (lit ". ") pieces) = false.
Proof.
  induction pieces as [|p rest IH]; intros Hne Hu Hb; [congruence|].
  inversion Hu as [|? ? Hp Hu']; inversion Hb as [|? ? Hbp Hb']; subst.
  destruct rest as [|q rest].
  - cbn [join].
    destruct (unbroken_last p Hp (notBlank_not_empty _ Hbp))
      as (x & c & -> & Hc).
    unfold endsWithTerminal. rewrite rev_app_distr. exact Hc.
  - change (join (lit ". ") (p :: q :: rest))
      with (p ++ lit ". " ++ join (lit ". ") (q :: rest)).
    inversion Hb' as [|? ? Hbq _]; subst.
    rewrite app_assoc, endsWithTerminal_app.
    + apply IH; [discriminate | assumption | assumption].
    + apply join_not_empty, notBlank_not_empty, Hbq.
Qed.

Lemma separator_then_clean (w : jsstring) :
  w <> [] -> startsClean w -> matchSeparator (lit ". " ++ w) = Some w.
Proof.
  destruct w as [|d w]; [congruence|]. intros _ Hd.
  cbn in Hd. cbn. rewrite Hd. reflexivity.
Qed.

Lemma join_starts_clean (p : jsstring) (rest : list jsstring)
    (tail : jsstring) :
  notBlank p = true -> startsClean p ->
  join (lit ". ") (p :: rest) ++ tail <> []
  /\ startsClean (join (lit ". ") (p :: rest) ++ tail).
Proof.
  intros Hb Hc. destruct p as [|d p]; [discriminate|].
  destruct rest; cbn [join app]; split; try discriminate; exact Hc.
Qed.

(** Splitting the joined pieces, closed by a full stop, gives the pieces
    back. *)
Lemma rejoined_count (pieces : list jsstring) :
  pieces <> [] ->
  Forall (fun p => unbroken p = true) pieces ->
  Forall (fun p => notBlank p = true) pieces ->
  Forall startsClean (tl pieces) ->
  List.length
    (List.filter notBlank (splitFrom [] (join (lit ". ") pieces ++ lit ".")))
  = List.length pieces.
Proof.
  induction pieces as [|p rest IH]; intros Hne Hu Hb Hc; [congruence|].
  inversion Hu as [|? ? Hp Hu']; inversion Hb as [|? ? Hbp Hb']; subst.
  destruct rest as [|q rest].
  - cbn [join]. rewrite (split_through p Hp).
    change (lit ".") with ["."%char].
    assert (Hdot : matchSeparator ["."%char] = None) by reflexivity.
    rewrite app_nil_r, split_cons, Hdot, split_nil.
    cbn [rev]. rewrite rev_involutive.
    cbn [List.filter].
    rewrite notBlank_visible, existsb_app. cbn [existsb].
    replace (visible ".") with true by reflexivity.
    rewrite orb_true_r. reflexivity.
  - change (join (lit ". ") (p :: q :: rest))
      with (p ++ lit ". " ++ join (lit ". ") (q :: rest)).
    rewrite <- !app_assoc. rewrite (split_through p Hp).
    cbn [tl] in Hc. inversion Hc as [|? ? Hq Hc']; subst.
    inversion Hb' as [|? ? Hbq _]; subst.
    destruct (join_starts_clean q rest (lit ".") Hbq Hq) as [Hj1 Hj2].
    pose proof (separator_then_clean _ Hj1 Hj2) as Hsep.
    change (lit ". " ++ ?w) with (("."%char) :: (" "%char) :: w) in *.
    rewrite split_cons, Hsep.
    rewrite app_nil_r, rev_involutive.
    cbn [List.filter]. rewrite Hbp. cbn [List.length]. f_equal.
    apply IH; try assumption. discriminate.
Qed.

Lemma sentences_filter (text : jsstring) :
  sentences text = List.filter notBlank (splitFrom [] text).
Proof. reflexivity. Qed.

(** The first sentences of a text that has more of them: each was closed
    by a separator, none is blank, and all but the first start clean. *)
Lemma leading_sentences (text : jsstring) (n : nat) :
  n < List.length (sentences text) ->
  let kept := firstn n (sentences text) in
  Forall (fun p => unbroken p = true) kept
  /\ Forall (fun p => notBlank p = true) kept
  /\ Forall startsClean (tl kept).
Proof.
  intros Hn. cbv zeta. rewrite sentences_filter in *. repeat split.
  - apply firstn_filter_before_last; [|exact Hn].
    apply (split_closed_pieces (List.length text)); [lia | exact I].
  - apply Forall_take, Forall_forall.
    intros x Hx. apply filter_In in Hx as [_ Hx]. exact Hx.
  - apply firstn_keeps_tail_property, filter_keeps_tail_property.
    apply (split_later_pieces (List.length text)). lia.
Qed.

(** C4, as the code has it.  For a limit of at least one sentence: a
    text with more sentences than the limit comes back with exactly
    [maxSentences] sentences and ends with terminal punctuation, and a
    text with at most [maxSentences] sentences comes back unchanged.
    Sentences are counted the way the function counts them. *)
Theorem sentence_limit_truncates (text : jsstring) (maxSentences : Z) :
  (1 <= maxSentences)%Z ->
  ((maxSentences < Z.of_nat (List.length (sentences text)))%Z ->
   Z.of_nat
     (List.length (sentences (enforceSentenceLimit text maxSentences)))
   = maxSentences
   /\ endsWithTerminal (enforceSentenceLimit text maxSentences) = true)
  /\ ((Z.of_nat (List.length (sentences text)) <= maxSentences)%Z ->
      enforceSentenceLimit text maxSentences = text).
Proof.
  intros Hmax. split.
  - intros Hmore. unfold enforceSentenceLimit.
    destruct text as [|c text]; [cbn in Hmore; lia|].
    cbn [truthy negb].
    destruct (Z.leb_spec (Z.of_nat (List.length (sentences (c :: text))))
                maxSentences) as [Hle|_]; [lia|].
    unfold slice0.
    destruct (Z.ltb_spec maxSentences 0) as [Hneg|_]; [lia|].
    set (n := Z.to_nat maxSentences).
    assert (Hn : n < List.length (sentences (c :: text))) by lia.
    destruct (leading_sentences (c :: text) n Hn) as (Hu & Hb & Hc).
    set (kept := firstn n (sentences (c :: text))) in *.
    assert (Hlen : List.length kept = n).
    { unfold kept. apply firstn_length_le. lia. }
    assert (Hkept : kept <> []).
    { intros E. rewrite E in Hlen. cbn in Hlen. lia. }
    rewrite (join_ends_open kept Hkept Hu Hb). cbn [negb]. split.
    + rewrite sentences_filter, (rejoined_count kept Hkept Hu Hb Hc).
      lia.
    + rewrite endsWithTerminal_app; [reflexivity | discriminate].
  - intros Hle. unfold enforceSentenceLimit.
    destruct (truthy text) eqn:E; cbn [negb].
    + destruct (Z.leb_spec (Z.of_nat (List.length (sentences text)))
                  maxSentences); [reflexivity | lia].
    + destruct text; [reflexivity | discriminate].
Qed.

Lemma sentence_limit_truncates_witness :
  let text := lit "Rain fell all night! Roads closed?  Crews work. Done" in
  sentences text
  = [lit "Rain fell all night"; lit "Roads closed"; lit "Crews work";
     lit "Done"]
  /\ enforceSentenceLimit text 2 = lit "Rain fell all night. Roads closed."
  /\ Z.of_nat (List.length (sentences (enforceSentenceLimit text 2))) = 2%Z
  /\ endsWithTerminal (enforceSentenceLimit text 2) = true.
Proof.
  cbv zeta. split; [reflexivity|]. split; [reflexivity|].
  apply (sentence_limit_truncates
           (lit "Rain fell all night! Roads closed?  Crews work. Done") 2).
  - lia.
  - vm_compute. reflexivity.
Defined.

(** A text within the limit comes back unchanged, whatever the limit. *)
Lemma within_limit_unchanged (text : jsstring) (maxSentences : Z) :
  (Z.of_nat (List.length (sentences text)) <= maxSentences)%Z ->
  enforceSentenceLimit text maxSentences = text.
Proof.
  intros Hle. unfold enforceSentenceLimit.
  destruct (truthy text) eqn:E; cbn [negb].
  - destruct (Z.leb_spec (Z.of_nat (List.length (sentences text)))
                maxSentences); [reflexivity | lia].
  - destruct text; [reflexivity | discriminate].
Qed.

(** C4 fails as stated for a limit below one.  With the limit 0 the
    text "One. Two" has two sentences, more than zero, and comes back as
    ".", which the function counts as one sentence.  With the limit -1
    the text "A. B. C" comes back as "A. B.", two sentences. *)
Lemma limit_below_one_is_not_met :
  let result := enforceSentenceLimit (lit "One. Two") 0 in
  let other := enforceSentenceLimit (lit "A. B. C") (-1) in
  sentences (lit "One. Two") = [lit "One"; lit "Two"]
  /\ result = lit "."
  /\ sentences result = [lit "."]
  /\ Z.of_nat (List.length (sentences result)) <> 0%Z
  /\ other = lit "A. B."
  /\ sentences other = [lit "A"; lit "B."]
  /\ Z.of_nat (List.length (sentences other)) <> (-1)%Z.
Proof.
  cbv zeta. repeat split; discriminate.
Qed.

End SentenceFacts.

(** * Further properties *)

(** ** The transcript hook, final fragments and the marker *)

Section TranscriptMore.

Lemma join_absorbs (sep p t : jsstring) (rest : list jsstring) :
  join sep ((p ++ sep ++ t) :: rest) = join sep (p :: t :: rest).
Proof.
  destruct rest as [|r rs]; cbn [join].
  - reflexivity.
  - rewrite <- !app_assoc. reflexivity.
Qed.

Lemma finals_after_text (texts : list jsstring) (prev : jsstring) :
  truthy prev = true ->
  handleAll (map final texts) prev = join (lit " ") (prev :: texts).
Proof.
  revert prev; induction texts as [|t rest IH]; intros prev Hprev.
  - reflexivity.
  - change (handleAll (map final (t :: rest)) prev)
      with (handleAll (map final rest)
              (handleTranscriptMessage (final t) prev)).
    rewrite handle_final. unfold joined. rewrite Hprev.
    rewrite IH; [apply join_absorbs|].
    destruct prev; [discriminate | reflexivity].
Qed.

(** X1.  A stream of final fragments only, starting from an empty
    transcript with a first text that is not empty, builds the texts
    joined by single spaces. *)
Theorem finals_only_join (first : jsstring) (others : list jsstring) :
  truthy first = true ->
  handleAll (map final (first :: others)) []
  = join (lit " ") (first :: others).
Proof.
  intros H.
  change (handleAll (map final (first :: others)) [])
    with (handleAll (map final others) first).
  apply finals_after_text, H.
Qed.

Lemma finals_only_join_witness :
  handleAll (map final [lit "Good morning."; lit "How are you?"]) []
  = join (lit " ") [lit "Good morning."; lit "How are you?"].
Proof.
  apply (finals_only_join (lit "Good morning.") [lit "How are you?"]).
  reflexivity.
Defined.

Lemma marked_step (message : TranscriptMessage) (t : jsstring) :
  Runs.marked t ->
  Runs.marked (handleTranscriptMessage message t)
  /\ committed (handleTranscriptMessage message t) = committed t.
Proof.
  intros [rest Ht]. destruct message as [text [|]].
  - change (handleTranscriptMessage _ t) with (joined t text).
    unfold joined.
    assert (Hne : truthy t = true).
    { rewrite Ht. destruct (committed t); reflexivity. }
    rewrite Hne.
    assert (E : t ++ lit " " ++ text
                = committed t ++ interimMarker ++ (rest ++ lit " " ++ text)).
    { rewrite Ht at 1. rewrite <- !app_assoc. reflexivity. }
    rewrite E.
    pose proof (committed_rebuild t (rest ++ lit " " ++ text)) as Hc.
    split; [|exact Hc].
    exists (rest ++ lit " " ++ text). rewrite Hc. reflexivity.
  - change (handleTranscriptMessage _ t)
      with (committed t ++ interimInfix ++ text).
    rewrite infix_shape.
    pose proof (committed_rebuild t (" "%char :: text)) as Hc.
    split; [|exact Hc].
    exists (" "%char :: text). rewrite Hc. reflexivity.
Qed.

Lemma marked_after_interim (text t : jsstring) :
  Runs.marked (handleTranscriptMessage (interim text) t)
  /\ committed (handleTranscriptMessage (interim text) t) = committed t.
Proof.
  rewrite handle_interim, infix_shape.
  pose proof (committed_rebuild t (" "%char :: text)) as Hc.
  split; [|exact Hc].
  exists (" "%char :: text). rewrite Hc. reflexivity.
Qed.

Lemma marked_run (messages : list TranscriptMessage) (t : jsstring) :
  Runs.marked t -> committed (handleAll messages t) = committed t.
Proof.
  revert t; induction messages as [|m rest IH]; intros t Ht.
  - reflexivity.
  - change (handleAll (m :: rest) t)
      with (handleAll rest (handleTranscriptMessage m t)).
    destruct (marked_step m t Ht) as [Hm Hc].
    rewrite (IH _ Hm). exact Hc.
Qed.

(** X2.  From the first interim fragment on, no fragment changes the
    committed text any more, final or interim: whatever follows the
    interim fragment, the text before the marker stays what it was. *)
Theorem committed_frozen_after_interim
    (prev text : jsstring) (messages : list TranscriptMessage) :
  committed (handleAll (interim text :: messages) prev) = committed prev.
Proof.
  change (handleAll (interim text :: messages) prev)
    with (handleAll messages (handleTranscriptMessage (interim text) prev)).
  destruct (marked_after_interim text prev) as [Hm Hc].
  rewrite (marked_run _ _ Hm). exact Hc.
Qed.

Lemma forallb_skipn {A : Type} (f : A -> bool) (n : nat) (l : list A) :
  forallb f l = true -> forallb f (skipn n l) = true.
Proof.
  revert l; induction n as [|n IH]; intros l H; [exact H|].
  destruct l as [|a l]; [reflexivity|].
  cbn [skipn]. cbn [forallb] in H. apply andb_prop in H as [_ H].
  apply IH, H.
Qed.

Lemma stripInterim_without_terminators (t : jsstring) :
  forallb (fun c => negb (is_line_terminator c)) t = true ->
  stripInterim t = committed t.
Proof.
  unfold committed. induction t as [|c rest IH]; intros H; [reflexivity|].
  cbn [stripInterim split_head].
  rewrite (forallb_skipn _ (List.length interimMarker) _ H), andb_true_r.
  destruct (startsWith interimMarker (c :: rest)); [reflexivity|].
  f_equal. apply IH. cbn [forallb] in H.
  apply andb_prop in H as [_ H]. exact H.
Qed.

(** X3.  On a transcript without line terminators the text the
    summaries hook reads, [transcript.replace(/ \[interim\].*$/, '')],
    is the committed text of the transcript hook. *)
Theorem stripInterim_is_committed (t : jsstring) :
  forallb (fun c => negb (is_line_terminator c)) t = true ->
  stripInterim t = committed t.
Proof.
  unfold committed. induction t as [|c rest IH]; intros H; [reflexivity|].
  cbn [stripInterim split_head].
  rewrite (forallb_skipn _ (List.length interimMarker) _ H), andb_true_r.
  destruct (startsWith interimMarker (c :: rest)); [reflexivity|].
  f_equal. apply IH. cbn [forallb] in H.
  apply andb_prop in H as [_ H]. exact H.
Qed.

Lemma stripInterim_is_committed_witness :
  stripInterim (lit "We met today [interim] and then")
  = committed (lit "We met today [interim] and then").
Proof.
  apply (stripInterim_is_committed (lit "We met today [interim] and then")).
  reflexivity.
Defined.

End TranscriptMore.

(** ** The summaries hook, what it requests and what it shows *)

Section SummaryMore.

Import Notions.

Lemma call_on_text (text : jsstring) (st : state) :
  truthy (trim text) = true ->
  snd (generateSummary_call text st) = [Summarize text].
Proof.
  intros H. rewrite (generateSummary_call_issues _ _ H). reflexivity.
Qed.

(** A fire of the interval and a run of the effect each send at most one
    request, and a request they send is for the text the regular
    expression leaves, which is then not blank. *)
Lemma requests_are_stripped
    (transcript : jsstring) (st : state) :
  let text := stripInterim transcript in
  (snd (intervalFire transcript st) = []
   \/ (snd (intervalFire transcript st) = [Summarize text]
       /\ notBlank text = true))
  /\ (snd (effectRun transcript st) = []
      \/ (snd (effectRun transcript st) = [Summarize text]
          /\ notBlank text = true)).
Proof.
  cbv zeta. unfold notBlank. split.
  - unfold intervalFire.
    destruct (truthy (trim (stripInterim transcript))) eqn:E;
      [|left; reflexivity].
    destruct (jsstring_eqb _ _); [left; reflexivity|].
    right. cbn [andb negb].
    pose proof (call_on_text _ st E) as Hc.
    destruct (generateSummary_call (stripInterim transcript) st).
    split; [exact Hc | reflexivity].
  - unfold effectRun.
    destruct (truthy transcript && _); [|left; reflexivity].
    destruct (truthy (trim (stripInterim transcript))) eqn:E;
      [|left; reflexivity].
    right.
    pose proof (call_on_text _ st E) as Hc.
    destruct (generateSummary_call (stripInterim transcript) st).
    split; [exact Hc | reflexivity].
Qed.

(** X4.  On a transcript without line terminators, a fire of the
    interval and a run of the effect each send at most one request, and a
    request they send carries the committed text of the transcript, the
    text before its first interim marker, which is then not blank: the
    pending interim text and blank text are not sent to the summary
    service. *)
Theorem requests_carry_committed_text
    (transcript : jsstring) (st : state) :
  forallb (fun c => negb (is_line_terminator c)) transcript = true ->
  let text := committed transcript in
  (snd (intervalFire transcript st) = []
   \/ (snd (intervalFire transcript st) = [Summarize text]
       /\ notBlank text = true))
  /\ (snd (effectRun transcript st) = []
      \/ (snd (effectRun transcript st) = [Summarize text]
          /\ notBlank text = true)).
Proof.
  intros H. cbv zeta.
  rewrite <- (stripInterim_without_terminators transcript H).
  exact (requests_are_stripped transcript st).
Qed.

Lemma requests_carry_committed_text_witness :
  (snd (intervalFire (lit "We met today [interim] and then") initial) = []
   \/ (snd (intervalFire (lit "We met today [interim] and then") initial)
       = [Summarize (committed (lit "We met today [interim] and then"))]
       /\ notBlank (committed (lit "We met today [interim] and then"))
          = true))
  /\ (snd (effectRun (lit "We met today [interim] and then") initial) = []
      \/ (snd (effectRun (lit "We met today [interim] and then") initial)
          = [Summarize (committed (lit "We met today [interim] and then"))]
          /\ notBlank (committed (lit "We met today [interim] and then"))
             = true)).
Proof.
  apply (requests_carry_committed_text
           (lit "We met today [interim] and then") initial).
  reflexivity.
Defined.

(** What that fire sends: the committed text, without the pending one. *)
Lemma committed_text_requested :
  snd (intervalFire (lit "We met today [interim] and then") initial)
  = [Summarize (lit "We met today")].
Proof. reflexivity. Qed.

(** With a line terminator after the marker the regular expression does
    not match, and the whole transcript is requested, pending text
    included. *)
Lemma terminator_defeats_strip :
  let transcript := lit "a [interim] b" ++ ["010"%char] ++ lit "c" in
  snd (intervalFire transcript initial) = [Summarize transcript].
Proof. reflexivity. Qed.

Lemma settle_consistent (o : outcome) (now : jsstring) (st : state) :
  currentSummary st = option_map summary (hd_error (summaryHistory st)) ->
  consistent (generateSummary_settle o now st).
Proof.
  intros H. destruct o; split; try reflexivity. exact H.
Qed.

Lemma call_keeps_shown (text : jsstring) (st : state) :
  currentSummary (fst (generateSummary_call text st)) = currentSummary st
  /\ summaryHistory (fst (generateSummary_call text st))
     = summaryHistory st
  /\ (snd (generateSummary_call text st) = []
      -> fst (generateSummary_call text st) = st).
Proof.
  unfold generateSummary_call.
  destruct (negb (truthy text) || negb (truthy (trim text)));
    repeat split; discriminate.
Qed.

Lemma settled_consistent
    (fired : state * list request) (o : outcome) (now : jsstring)
    (st : state) :
  consistent st ->
  currentSummary (fst fired) = currentSummary st ->
  summaryHistory (fst fired) = summaryHistory st ->
  (snd fired = [] -> isLoading (fst fired) = false) ->
  consistent (Runs.settled fired o now).
Proof.
  intros [Hc Hl] H1 H2 H3. destruct fired as [st' [|r rs]]; cbn in *.
  - split; [congruence | apply H3; reflexivity].
  - apply settle_consistent. congruence.
Qed.

Lemma apply_consistent (s : Runs.step) (st : state) :
  consistent st -> consistent (Runs.apply s st).
Proof.
  intros Hst. pose proof Hst as [Hc Hl].
  destruct s as [t o now | t o now | text o now |]; cbn [Runs.apply].
  - apply (settled_consistent _ o now st Hst); unfold intervalFire;
      destruct (truthy (trim (stripInterim t)) && _);
      try reflexivity; try (intros _; exact Hl);
      destruct (call_keeps_shown (stripInterim t) st) as (A & B & C);
      destruct (generateSummary_call (stripInterim t) st) as [st' rs];
      cbn in *; try assumption.
    intros ->. rewrite (C eq_refl). exact Hl.
  - apply (settled_consistent _ o now st Hst); unfold effectRun;
      destruct (truthy t && _); try reflexivity;
      try (intros _; exact Hl);
      destruct (truthy (trim (stripInterim t)));
      try reflexivity; try (intros _; exact Hl);
      destruct (call_keeps_shown (stripInterim t) st) as (A & B & C);
      destruct (generateSummary_call (stripInterim t) st) as [st' rs];
      cbn in *; try assumption.
    intros ->. rewrite (C eq_refl). exact Hl.
  - unfold generateSummary.
    destruct (call_keeps_shown text st) as (A & B & C).
    destruct (generateSummary_call text st) as [st' [|r rs]]; cbn in *.
    + rewrite (C eq_refl). exact Hst.
    + apply settle_consistent. congruence.
  - split; [reflexivity | exact Hl].
Qed.

(** X5.  After any series of completed fires, effect runs, direct calls
    and clears from the initial state, the current summary is the
    summary of the newest item of the history (and null exactly when the
    history is empty), and the loading flag is off. *)
Theorem shown_summary_is_newest (steps : list Runs.step) :
  let st := Runs.run steps initial in
  currentSummary st = option_map summary (hd_error (summaryHistory st))
  /\ isLoading st = false.
Proof.
  cbv zeta. change (consistent (Runs.run steps initial)).
  assert (H : consistent initial) by (split; reflexivity).
  revert H. generalize initial.
  induction steps as [|s rest IH]; intros st H; [exact H|].
  apply IH, apply_consistent, H.
Qed.

End SummaryMore.

(** ** The streaming client: frames, audio, start and stop *)

Section CaptureMore.

Import Deepgram Capture.

Lemma delivered_needs_callback
    (data : message) (st : service) (cb : callback)
    (fragment : TranscriptMessage) :
  handleDeepgramMessage data st = Some (cb, fragment) ->
  transcriptCallback st = Some cb
  /\ notBlank (Transcription.transcript fragment) = true.
Proof.
  unfold handleDeepgramMessage, notBlank.
  destruct (is_string (type data) "TurnInfo").
  - destruct (transcript data) as [text|]; [|discriminate].
    destruct (transcriptCallback st); [|discriminate].
    destruct (truthy (trim text)) eqn:E; [|discriminate].
    intros [= <- <-]. split; [reflexivity | exact E].
  - destruct (is_string (type data) "Results"); [|discriminate].
    destruct (truthy_opt (channel_transcript data)); [|discriminate].
    destruct (channel_transcript data) as [text|]; [|discriminate].
    destruct (transcriptCallback st); [|discriminate].
    destruct (truthy (trim text)) eqn:E; [|discriminate].
    intros [= <- <-]. split; [reflexivity | exact E].
Qed.

Lemma onMessage_needs_callback
    (parse : jsstring -> option message) (data : eventData)
    (st : service) (cb : callback) (fragment : TranscriptMessage) :
  onMessage parse data st = Some (cb, fragment) ->
  transcriptCallback st = Some cb.
Proof.
  unfold onMessage. destruct data as [bytes | messageText]; [discriminate|].
  destruct (negb (truthy messageText) || _); [discriminate|].
  destruct (parse messageText) as [parsed|]; [|discriminate].
  intros H. apply (delivered_needs_callback _ _ _ _ H).
Qed.

(** X6.  A fragment reaches the callback only from a text frame whose
    trimmed text starts with a brace and parses; it goes to the callback
    registered in the service and its text is not blank.  Binary frames,
    other text and frames that fail to parse deliver nothing. *)
Theorem delivered_fragment_origin
    (parse : jsstring -> option message) (data : eventData)
    (st : service) (cb : callback) (fragment : TranscriptMessage) :
  onMessage parse data st = Some (cb, fragment) ->
  (exists messageText parsed,
      data = Text messageText
      /\ startsWith (lit "{") (trim messageText) = true
      /\ parse messageText = Some parsed)
  /\ transcriptCallback st = Some cb
  /\ notBlank (Transcription.transcript fragment) = true.
Proof.
  unfold onMessage. destruct data as [bytes | messageText]; [discriminate|].
  destruct (truthy messageText); [|discriminate].
  destruct (startsWith (lit "{") (trim messageText)) eqn:E; [|discriminate].
  cbn [negb orb].
  destruct (parse messageText) as [parsed|] eqn:P; [|discriminate].
  intros H. split; [|exact (delivered_needs_callback _ _ _ _ H)].
  exists messageText, parsed. repeat split; assumption.
Qed.

Lemma delivered_fragment_origin_witness :
  (exists messageText parsed,
      Text (lit "{ }") = Text messageText
      /\ startsWith (lit "{") (trim messageText) = true
      /\ (fun _ => Some confidentUpdate) messageText = Some parsed)
  /\ transcriptCallback recordingSession = Some 7
  /\ notBlank
       (Transcription.transcript
          (mkTranscriptMessage (lit "Hello world") true)) = true.
Proof.
  apply (delivered_fragment_origin (fun _ => Some confidentUpdate)
           (Text (lit "{ }")) recordingSession 7
           (mkTranscriptMessage (lit "Hello world") true)).
  reflexivity.
Defined.

Lemma onAudioData_counts
    (base64 : jsstring -> list ascii)
    (ready : socket -> Server.readyState) (data : jsstring)
    (st : service) :
  let result := onAudioData base64 ready data st in
  audioChunkCount (fst result)
  = audioChunkCount st + List.length (snd result)
  /\ ws (fst result) = ws st
  /\ isRecording (fst result) = isRecording st
  /\ (snd result = [] \/ exists s, ws st = Some s
                                  /\ snd result = [WsSend s (base64 data)]).
Proof.
  cbv zeta. unfold onAudioData, sendAudioData.
  destruct (isRecording st) eqn:Hrec; cbn [negb].
  - destruct (ws st) as [s|] eqn:Hws.
    + destruct (Server.is_open (ready s)) eqn:Hopen; cbn [negb].
      * cbn [ws set_audioChunkCount isRecording fst snd audioChunkCount].
        rewrite Hws, Hopen, Hrec. cbn.
        repeat split; try lia. right. exists s. split; reflexivity.
      * cbn. repeat split; try lia; auto.
    + cbn. repeat split; try lia; auto.
  - cbn. repeat split; try lia; auto.
Qed.

(** Over any series of chunks from the recorder, the chunk counter
    grows by the number of chunks handed to the socket; every chunk
    handed over goes to the socket of the session; the socket and the
    recording flag are not touched. *)
Lemma onAudioEvents_counts
    (base64 : jsstring -> list ascii)
    (events : list ((socket -> Server.readyState) * jsstring))
    (st : service) :
  let result := Runs.onAudioEvents base64 events st in
  audioChunkCount (fst result)
  = audioChunkCount st + List.length (snd result)
  /\ ws (fst result) = ws st
  /\ isRecording (fst result) = isRecording st
  /\ Forall (fun c => exists s data, ws st = Some s /\ c = WsSend s data)
            (snd result).
Proof.
  cbv zeta. unfold Runs.onAudioEvents.
  assert (G : forall acc : service * list call,
             audioChunkCount (fst acc)
             = audioChunkCount st + List.length (snd acc) ->
             ws (fst acc) = ws st ->
             isRecording (fst acc) = isRecording st ->
             Forall (fun c => exists s data,
                       ws st = Some s /\ c = WsSend s data) (snd acc) ->
             let result :=
               fold_left
                 (fun acc event =>
                    let '(st', calls) :=
                      onAudioData base64 (fst event) (snd event) (fst acc) in
                    (st', snd acc ++ calls)) events acc in
             audioChunkCount (fst result)
             = audioChunkCount st + List.length (snd result)
             /\ ws (fst result) = ws st
             /\ isRecording (fst result) = isRecording st
             /\ Forall (fun c => exists s data,
                          ws st = Some s /\ c = WsSend s data)
                       (snd result)).
  { induction events as [|[ready data] rest IH]; intros acc H1 H2 H3 H4.
    - cbn. auto.
    - cbn [fold_left]. apply IH;
        destruct (onAudioData_counts base64 ready data (fst acc))
          as (A & B & C & D);
        cbn [fst snd] in *;
        destruct (onAudioData base64 ready data (fst acc)) as [st' calls];
        cbn [fst snd] in *.
      + rewrite List.length_app. lia.
      + congruence.
      + congruence.
      + apply Forall_app. split; [exact H4|].
        destruct D as [-> | (s & Hs & ->)]; [constructor|].
        constructor; [|constructor].
        exists s, (base64 data). split; [congruence | reflexivity]. }
  apply G; cbn; auto.
Qed.

Lemma onAudioData_sends
    (base64 : jsstring -> list ascii)
    (ready : socket -> Server.readyState) (data : jsstring)
    (st : service) :
  snd (onAudioData base64 ready data st)
  = match ws st with
    | Some s =>
        if isRecording st && Server.is_open (ready s)
        then [WsSend s (base64 data)]
        else []
    | None => []
    end.
Proof.
  unfold onAudioData, sendAudioData.
  destruct (isRecording st) eqn:Hrec; cbn [negb andb].
  - destruct (ws st) as [s|] eqn:Hws; [|reflexivity].
    destruct (Server.is_open (ready s)) eqn:Hopen; cbn [negb];
      [|reflexivity].
    cbn [ws set_audioChunkCount isRecording fst snd].
    rewrite Hws, Hopen, Hrec. reflexivity.
  - destruct (ws st); reflexivity.
Qed.

(** X7.  Over any series of chunks from the recorder, the chunks handed
    to the socket are exactly those that arrive while the session is
    recording and its socket is open, each base64-decoded, in the order
    of arrival and on the socket of the session; a chunk that arrives
    while the session is not recording, has no socket or has a socket
    that is not open is dropped.  The chunk counter grows by the number
    of chunks handed over, and the socket and the recording flag are not
    touched. *)
Theorem chunk_counter_counts_sends
    (base64 : jsstring -> list ascii)
    (events : list ((socket -> Server.readyState) * jsstring))
    (st : service) :
  let result := Runs.onAudioEvents base64 events st in
  snd result
  = match ws st with
    | Some s =>
        if isRecording st
        then map (fun event => WsSend s (base64 (snd event)))
               (List.filter (fun event => Server.is_open (fst event s))
                  events)
        else []
    | None => []
    end
  /\ audioChunkCount (fst result)
     = audioChunkCount st + List.length (snd result)
  /\ ws (fst result) = ws st
  /\ isRecording (fst result) = isRecording st.
Proof.
  cbv zeta.
  destruct (onAudioEvents_counts base64 events st) as (A & B & C & _).
  split; [|repeat split; assumption].
  clear A B C. unfold Runs.onAudioEvents.
  set (expected := fun events : list ((socket -> Server.readyState) * jsstring) =>
    match ws st with
    | Some s =>
        if isRecording st
        then map (fun event => WsSend s (base64 (snd event)))
               (List.filter (fun event => Server.is_open (fst event s))
                  events)
        else []
    | None => []
    end).
  assert (G : forall acc : service * list call,
             ws (fst acc) = ws st ->
             isRecording (fst acc) = isRecording st ->
             snd (fold_left
                    (fun acc event =>
                       let '(st', calls) :=
                         onAudioData base64 (fst event) (snd event)
                           (fst acc) in
                       (st', snd acc ++ calls)) events acc)
             = snd acc ++ expected events).
  { induction events as [|[ready data] rest IH]; intros acc H1 H2.
    - cbn [fold_left]. unfold expected.
      destruct (ws st); [destruct (isRecording st)|];
        cbn; rewrite app_nil_r; reflexivity.
    - cbn [fold_left].
      pose proof (onAudioData_sends base64 ready data (fst acc)) as Hs.
      destruct (onAudioData_counts base64 ready data (fst acc))
        as (_ & B & C & _).
      cbn [fst snd] in *.
      destruct (onAudioData base64 ready data (fst acc)) as [st' calls].
      cbn [fst snd] in *.
      rewrite IH by (cbn [fst]; congruence).
      cbn [snd]. rewrite <- app_assoc. f_equal.
      rewrite Hs, H1, H2. unfold expected.
      destruct (ws st) as [s|]; [|reflexivity].
      destruct (isRecording st); cbn [andb]; [|reflexivity].
      cbn [List.filter fst snd].
      destruct (Server.is_open (ready s)); reflexivity. }
  rewrite G by reflexivity. reflexivity.
Qed.

(** X8.  After [stopTranscription], whatever it met, no audio leaves the
    service: [sendAudioData], the recorder callback and the test-audio
    callback send nothing, whatever the state of the socket. *)
Theorem no_audio_after_stop
    (throws : effect -> bool) (base64 : jsstring -> list ascii)
    (ready : socket -> Server.readyState)
    (bytes : list ascii) (data : jsstring) (st : service) :
  let stopped := fst (stopTranscription throws st) in
  sendAudioData ready bytes stopped = []
  /\ onAudioData base64 ready data stopped = (stopped, [])
  /\ testAudioTick ready bytes stopped = [].
Proof.
  cbv zeta. pose proof (stopped_after_stop throws st) as H.
  unfold sendAudioData, onAudioData, testAudioTick. rewrite H.
  repeat split.
  destruct (ws _); [rewrite andb_false_r|]; reflexivity.
Qed.

Lemma clean_stop_clears (throws : effect -> bool) (st : service) :
  isRecording st = true ->
  (forall e, throws e = false) ->
  ws (fst (stopTranscription throws st)) = None
  /\ transcriptCallback (fst (stopTranscription throws st)) = None.
Proof.
  intros Hrec Hno. unfold stopTranscription. rewrite Hrec. cbn [negb].
  cbn [useTestAudio].
  destruct (useTestAudio st).
  - unfold stopTestAudio. cbn [testAudioInterval].
    destruct (testAudioInterval st); cbn [ws];
      destruct (ws st); rewrite ?Hno; split; reflexivity.
  - unfold stopMicrophoneAudio. cbn [audioRecordInitialized].
    destruct (audioRecordInitialized st); rewrite ?Hno; cbn [ws];
      destruct (ws st); rewrite ?Hno; split; reflexivity.
Qed.

(** X9.  After a [stopTranscription] of a recording session in which no
    call throws, the socket and the callback are cleared, so no frame
    that still arrives reaches the callback. *)
Theorem no_fragment_after_clean_stop
    (throws : effect -> bool) (parse : jsstring -> option message)
    (data : eventData) (st : service) :
  isRecording st = true ->
  (forall e, throws e = false) ->
  let stopped := fst (stopTranscription throws st) in
  ws stopped = None
  /\ transcriptCallback stopped = None
  /\ onMessage parse data stopped = None.
Proof.
  intros Hrec Hno. cbv zeta.
  destruct (clean_stop_clears throws st Hrec Hno) as [Hws Hcb].
  repeat split; try assumption.
  destruct (onMessage parse data _) as [[cb fragment]|] eqn:E;
    [|reflexivity].
  apply onMessage_needs_callback in E. congruence.
Qed.

Lemma no_fragment_after_clean_stop_witness :
  let stopped :=
    fst (stopTranscription (fun _ => false) recordingSession) in
  ws stopped = None
  /\ transcriptCallback stopped = None
  /\ onMessage (fun _ => Some confidentUpdate) (Text (lit "{ }")) stopped
     = None.
Proof.
  apply (no_fragment_after_clean_stop (fun _ => false)
           (fun _ => Some confidentUpdate) (Text (lit "{ }"))
           recordingSession); reflexivity.
Defined.

End CaptureMore.

Section StartMore.

Import Deepgram Capture Notions.

Variable throws : effect -> bool.
Variable fails : call -> option jsstring.

Lemma startMicrophoneAudio_keeps
    (st : service) :
  let result := startMicrophoneAudio fails st in
  isRecording (fst (fst result)) = isRecording st
  /\ ws (fst (fst result)) = ws st
  /\ transcriptCallback (fst (fst result)) = transcriptCallback st
  /\ testAudioInterval (fst (fst result)) = testAudioInterval st
  /\ (snd result = None -> audioRecordInitialized (fst (fst result)) = true)
  /\ useTestAudio (fst (fst result)) = useTestAudio st.
Proof.
  cbv zeta. unfold startMicrophoneAudio, initAudioRecord.
  destruct (audioRecordInitialized st) eqn:Hinit;
    [|destruct (fails AudioRecordInit)];
    try destruct (fails AudioRecordStart); cbn;
    repeat split; auto; discriminate.
Qed.

Lemma startMicrophoneAudio_calls (connect : connectOutcome) (st : service) :
  Forall (startCall connect) (snd (fst (startMicrophoneAudio fails st))).
Proof.
  unfold startMicrophoneAudio, initAudioRecord.
  destruct (audioRecordInitialized st);
    [|destruct (fails AudioRecordInit)];
    try destruct (fails AudioRecordStart); cbn;
    repeat constructor; discriminate.
Qed.

Lemma connectDeepgram_facts (connect : connectOutcome) (st : service) :
  let r := connectDeepgram connect st in
  isRecording (fst (fst r)) = isRecording st
  /\ Forall (startCall connect) (snd (fst r))
  /\ (snd r = None -> exists s, connect = Opened s).
Proof.
  cbv zeta.
  destruct connect as [s | message | s | s message | s message];
    cbn [connectDeepgram fst snd set_ws isRecording];
    (split; [reflexivity|]); (split; [|try discriminate; eauto]);
    repeat constructor; try discriminate; congruence.
Qed.

Lemma start_outcome
    (hasPermission : bool) (connect : connectOutcome) (t : timer)
    (cb : callback) (useTest : bool) (st : service) :
  let r := startTranscription throws fails hasPermission connect t cb
             useTest st in
  isRecording (stateAfter r) = succeeded (resultOf r)
  /\ Forall (startCall connect) (callsOf r).
Proof.
  cbv zeta. unfold startTranscription, stateAfter, callsOf, resultOf.
  destruct (isRecording st) eqn:Hrec; [cbn; auto|].
  assert (Hfirst : startCall connect RequestPermission)
    by (repeat split; discriminate).
  destruct (negb hasPermission && negb useTest).
  - rewrite (stop_when_not_recording throws st Hrec). cbn.
    split; [exact Hrec | repeat constructor; discriminate].
  - destruct (connectDeepgram_facts connect st) as (Hkeep & Hconn & _).
    destruct (connectDeepgram connect st) as [[st0 connecting] [message|]];
      cbn [fst snd] in Hkeep, Hconn.
    + rewrite (stop_when_not_recording throws st0) by congruence.
      cbn. split; [congruence|]. rewrite app_nil_r.
      constructor; assumption.
    + destruct useTest.
      * cbn. split; [reflexivity|]. constructor; [assumption|].
        apply Forall_app. split; [assumption|].
        repeat constructor; discriminate.
      * set (st1 := set_useTestAudio false _).
        destruct (startMicrophoneAudio_keeps st1) as (A & _ & _ & _ & _).
        assert (Hst1 : isRecording st1 = false)
          by (unfold st1; cbn; congruence).
        assert (Hcalls := startMicrophoneAudio_calls connect st1).
        destruct (startMicrophoneAudio fails st1) as [[st2 calls] [m|]];
          cbn [fst snd] in *.
        -- rewrite (stop_when_not_recording throws st2) by congruence.
           cbn. split; [congruence|]. rewrite app_nil_r.
           constructor; [assumption|].
           apply Forall_app. split; assumption.
        -- cbn. split; [reflexivity|].
           constructor; [assumption|].
           apply Forall_app. split; assumption.
Qed.

(** A connection attempt that times out: the start closes the socket it
    created, once, and fails with the message of the timeout; the socket
    stays in [this.ws] and the session is not recording. *)
Lemma start_timed_out
    (hasPermission : bool) (s : socket) (t : timer)
    (cb : callback) (useTest : bool) (st : service) :
  isRecording st = false ->
  hasPermission || useTest = true ->
  startTranscription throws fails hasPermission (TimedOut s) t cb useTest st
  = (set_ws (Some s) st,
     [RequestPermission; NewWebSocket; WsCloseBare s],
     StartFailed connectionTimeout).
Proof.
  intros Hrec Hok. unfold startTranscription. rewrite Hrec.
  assert (E : negb hasPermission && negb useTest = false)
    by (destruct hasPermission, useTest; (discriminate || reflexivity)).
  rewrite E. cbn [connectDeepgram].
  rewrite (stop_when_not_recording throws (set_ws (Some s) st)) by exact Hrec.
  reflexivity.
Qed.

Lemma start_while_recording
    (hasPermission : bool) (connect : connectOutcome) (t : timer)
    (cb : callback) (useTest : bool) (st : service) :
  isRecording st = true ->
  startTranscription throws fails hasPermission connect t cb useTest st
  = (st, [], StartOk).
Proof. intros H. unfold startTranscription. rewrite H. reflexivity. Qed.

(** X10.  After [startTranscription] the session is recording exactly
    when the call did not fail.  The call makes none of the calls of
    [stopTranscription], not even in its [catch] block, where
    [stopTranscription] finds a session that is not recording; it sends
    nothing on a socket; and the one close it can make is the close of
    the socket it created, when the connection attempt timed out. *)
Theorem start_records_iff_it_succeeds
    (hasPermission : bool) (connect : connectOutcome) (t : timer)
    (cb : callback) (useTest : bool) (st : service) :
  let r := startTranscription throws fails hasPermission connect t cb
             useTest st in
  (isRecording (stateAfter r) = true <-> resultOf r = StartOk)
  /\ Forall (fun c => forall e, c <> Stopping e) (callsOf r)
  /\ Forall (fun c => forall s data, c <> WsSend s data) (callsOf r)
  /\ (forall s, In (WsCloseBare s) (callsOf r) ->
        connect = TimedOut s /\ resultOf r = StartFailed connectionTimeout)
  /\ (isRecording st = false -> hasPermission || useTest = true ->
      forall s, connect = TimedOut s -> In (WsCloseBare s) (callsOf r)).
Proof.
  cbv zeta.
  destruct (start_outcome hasPermission connect t cb useTest st) as [H F].
  rewrite Forall_forall in F.
  split; [|split; [|split; [|split]]].
  - rewrite H. destruct (resultOf _); cbn [succeeded]; split; congruence.
  - apply Forall_forall. intros c Hc. exact (proj1 (F c Hc)).
  - apply Forall_forall. intros c Hc. exact (proj2 (proj2 (F c Hc))).
  - intros s Hin.
    assert (E : connect = TimedOut s)
      by exact (proj1 (proj2 (F _ Hin)) s eq_refl).
    split; [exact E|]. subst connect. revert Hin.
    unfold startTranscription, callsOf, resultOf.
    destruct (isRecording st) eqn:Hrec; [intros []|].
    destruct (negb hasPermission && negb useTest).
    + rewrite (stop_when_not_recording throws st Hrec). cbn.
      intros [Hin | []]. discriminate Hin.
    + cbn [connectDeepgram].
      rewrite (stop_when_not_recording throws (set_ws (Some s) st))
        by exact Hrec.
      reflexivity.
  - intros Hrec Hok s ->.
    rewrite (start_timed_out hasPermission s t cb useTest st Hrec Hok).
    cbn. auto.
Qed.

(** X11.  A second [startTranscription] after one that succeeded changes
    nothing and calls nothing, whatever its arguments: no second socket,
    no second recorder, and the first callback stays. *)
Theorem start_twice
    (hasPermission hasPermission' : bool)
    (connect connect' : connectOutcome) (t t' : timer)
    (cb cb' : callback) (useTest useTest' : bool) (st : service) :
  let r := startTranscription throws fails hasPermission connect t cb
             useTest st in
  resultOf r = StartOk ->
  startTranscription throws fails hasPermission' connect' t' cb' useTest'
    (stateAfter r)
  = (stateAfter r, [], StartOk).
Proof.
  cbv zeta. intros Hok.
  destruct (start_outcome hasPermission connect t cb useTest st) as [H _].
  rewrite Hok in H. cbn [succeeded] in H.
  apply start_while_recording, H.
Qed.

(** X12.  Without the microphone permission and without test audio,
    [startTranscription] on a session that is not recording fails with
    "Microphone permission denied" before it connects: the session is
    unchanged and the only call made is the permission request. *)
Theorem start_without_permission
    (connect : connectOutcome) (t : timer) (cb : callback) (st : service) :
  isRecording st = false ->
  startTranscription throws fails false connect t cb false st
  = (st, [RequestPermission], StartFailed permissionDenied).
Proof.
  intros Hrec. unfold startTranscription. rewrite Hrec. cbn [negb andb].
  rewrite (stop_when_not_recording throws st Hrec). reflexivity.
Qed.

(** X13.  When the socket opened and the microphone then fails to start,
    [startTranscription] fails and leaves the session not recording, with
    the open socket and the callback still in it: nothing closes the
    socket. *)
Theorem failed_microphone_keeps_socket
    (hasPermission : bool) (s : socket) (t : timer) (cb : callback)
    (st : service) (message : jsstring) :
  isRecording st = false ->
  hasPermission = true ->
  snd (startMicrophoneAudio fails
         (set_useTestAudio false
            (set_transcriptCallback (Some cb) (set_ws (Some s) st))))
  = Some message ->
  let r := startTranscription throws fails hasPermission (Opened s) t cb
             false st in
  resultOf r = StartFailed message
  /\ isRecording (stateAfter r) = false
  /\ ws (stateAfter r) = Some s
  /\ transcriptCallback (stateAfter r) = Some cb.
Proof.
  intros Hrec -> Hmic. cbv zeta.
  unfold startTranscription, stateAfter, resultOf.
  rewrite Hrec. cbn [negb andb connectDeepgram].
  set (st1 := set_useTestAudio false _) in *.
  destruct (startMicrophoneAudio_keeps st1) as (A & B & C & _ & _).
  destruct (startMicrophoneAudio fails st1) as [[st2 calls] m];
    cbn [fst snd] in *. subst m.
  rewrite (stop_when_not_recording throws st2) by (rewrite A; exact Hrec).
  cbn. repeat split; [rewrite A; exact Hrec | rewrite B | rewrite C];
    reflexivity.
Qed.

End StartMore.

Section StartStop.

Import Deepgram Capture Notions.

(** A start whose connection attempt times out, on a new service. *)
Lemma timed_out_start_closes_socket :
  startTranscription (fun _ => false) (fun _ => None) true (TimedOut 1) 5 7
    false fresh
  = (set_ws (Some 1) fresh,
     [RequestPermission; NewWebSocket; WsCloseBare 1],
     StartFailed connectionTimeout).
Proof. reflexivity. Qed.

Lemma start_twice_witness :
  startTranscription (fun _ => false) (fun _ => None) true (Opened 2) 9 8
    false
    (stateAfter
       (startTranscription (fun _ => false) (fun _ => None) true (Opened 1)
          5 7 true fresh))
  = (stateAfter
       (startTranscription (fun _ => false) (fun _ => None) true (Opened 1)
          5 7 true fresh),
     [], StartOk).
Proof.
  apply (start_twice (fun _ => false) (fun _ => None) true true
           (Opened 1) (Opened 2) 5 9 7 8 true false fresh).
  reflexivity.
Defined.

Lemma start_without_permission_witness :
  startTranscription (fun _ => false) (fun _ => None) false (Opened 1) 5 7
    false fresh
  = (fresh, [RequestPermission], StartFailed permissionDenied).
Proof.
  apply (start_without_permission (fun _ => false) (fun _ => None)
           (Opened 1) 5 7 fresh).
  reflexivity.
Defined.

Lemma failed_microphone_keeps_socket_witness :
  let r := startTranscription (fun _ => false) recorderBusy true (Opened 1)
             5 7 false fresh in
  resultOf r = StartFailed (lit "Microphone capture failed: busy")
  /\ isRecording (stateAfter r) = false
  /\ ws (stateAfter r) = Some 1
  /\ transcriptCallback (stateAfter r) = Some 7.
Proof.
  apply (failed_microphone_keeps_socket (fun _ => false) recorderBusy true
           1 5 7 fresh (lit "Microphone capture failed: busy"));
    reflexivity.
Defined.

(** X14.  A [startTranscription] that succeeds on a session that was not
    recording, followed by a [stopTranscription] in which nothing throws,
    stops the audio source that was started and closes the socket that
    was opened, once, with code 1000; afterwards the session holds no
    socket and no callback and is not recording. *)
Theorem start_then_stop
    (throws : effect -> bool) (fails : call -> option jsstring)
    (hasPermission : bool) (s : socket) (t : timer) (cb : callback)
    (useTest : bool) (st : service) :
  isRecording st = false ->
  let r := startTranscription throws fails hasPermission (Opened s) t cb
             useTest st in
  resultOf r = StartOk ->
  let stopped := stopTranscription (fun _ => false) (stateAfter r) in
  snd stopped
  = [if useTest then ClearInterval t else AudioRecordStop;
     WsClose s 1000 normalClosure]
  /\ ws (fst stopped) = None
  /\ transcriptCallback (fst stopped) = None
  /\ isRecording (fst stopped) = false
  /\ (if useTest then testAudioInterval (fst stopped) = None
      else audioRecordInitialized (fst stopped) = false).
Proof.
  intros Hrec. cbv zeta.
  unfold startTranscription, stateAfter, resultOf. rewrite Hrec.
  destruct (negb hasPermission && negb useTest).
  - rewrite (stop_when_not_recording throws st Hrec). discriminate.
  - cbn [connectDeepgram]. destruct useTest.
    + intros _. cbn. repeat split.
    + set (st1 := set_useTestAudio false _).
      destruct (startMicrophoneAudio_keeps fails st1)
        as (A & B & C & D & E & F).
      destruct (startMicrophoneAudio fails st1) as [[st2 calls] [m|]];
        cbn [fst snd] in *.
      * rewrite (stop_when_not_recording throws st2)
          by (rewrite A; exact Hrec).
        discriminate.
      * intros _. specialize (E eq_refl).
        destruct st2 as [w r c n i u a]. cbn in *. subst.
        cbn. repeat split.
Qed.

Lemma start_then_stop_witness :
  let r := startTranscription (fun _ => false) (fun _ => None) true
             (Opened 1) 5 7 false fresh in
  let stopped := stopTranscription (fun _ => false) (stateAfter r) in
  snd stopped = [AudioRecordStop; WsClose 1 1000 normalClosure]
  /\ ws (fst stopped) = None
  /\ transcriptCallback (fst stopped) = None
  /\ isRecording (fst stopped) = false
  /\ audioRecordInitialized (fst stopped) = false.
Proof.
  apply (start_then_stop (fun _ => false) (fun _ => None) true 1 5 7 false
           fresh); reflexivity.
Defined.

(** X15.  The recording flag of the hook follows the service: after
    [startTranscription] of the hook it equals the flag of the service,
    and the hook records an error exactly when the service call failed;
    after [stopTranscription] of the hook both flags are off. *)
Theorem hook_flag_follows_service
    (throws : effect -> bool) (fails : call -> option jsstring)
    (hasPermission : bool) (connect : connectOutcome) (t : timer)
    (cb : callback) (useTest : bool) (st : service) (h : Mobile.hook) :
  let r := startTranscription throws fails hasPermission connect t cb
             useTest st in
  Mobile.isRecording (Mobile.startTranscription (resultOf r) h)
  = isRecording (stateAfter r)
  /\ (Mobile.error (Mobile.startTranscription (resultOf r) h) = None
      <-> resultOf r = StartOk)
  /\ Mobile.isRecording (Mobile.stopTranscription h)
     = isRecording (fst (stopTranscription throws st)).
Proof.
  cbv zeta.
  destruct (start_outcome throws fails hasPermission connect t cb useTest st)
    as [H _].
  rewrite H, (stopped_after_stop throws st).
  destruct (resultOf _) as [|message]; cbn.
  - repeat split.
  - repeat split; try discriminate.
    unfold or_else. destruct (truthy_opt (Some message)); discriminate.
Qed.

End StartStop.

(** ** The server: file transcription, the sentence limit, the routes *)

Section FileMore.

Lemma onFileMessage_complete (m : option Deepgram.message)
    (st : fileState) :
  isComplete (onFileMessage m st) = isComplete st || Runs.completes m.
Proof.
  unfold Runs.completes, fragmentText, Api.fragmentFinal, onFileMessage,
    notBlank.
  destruct m as [message|]; [|rewrite orb_false_r; reflexivity].
  destruct (Deepgram.is_string (Deepgram.type message) "TurnInfo") eqn:Ety.
  - destruct (Deepgram.transcript message) as [text|].
    + cbn [andb]. destruct (truthy (trim text)).
      * destruct (_ || _); cbn [isComplete andb];
          [rewrite orb_true_r | rewrite orb_false_r]; reflexivity.
      * cbn [andb]. rewrite orb_false_r. reflexivity.
    + cbn [andb]. rewrite (results_is_not_turnInfo _ Ety).
      cbn [andb]. rewrite orb_false_r. reflexivity.
  - cbn [andb].
    destruct (Deepgram.is_string (Deepgram.type message) "Results");
      [|cbn [andb]; rewrite orb_false_r; reflexivity].
    cbn [andb].
    destruct (Deepgram.channel_transcript message) as [text|];
      [|cbn; rewrite orb_false_r; reflexivity].
    cbn [truthy_opt].
    destruct (truthy text) eqn:Et.
    + destruct (truthy (trim text)).
      * destruct (Deepgram.flag _); cbn [isComplete andb];
          [rewrite orb_true_r | rewrite orb_false_r]; reflexivity.
      * cbn [andb]. rewrite orb_false_r. reflexivity.
    + destruct text; [|discriminate]. cbn. rewrite orb_false_r.
      reflexivity.
Qed.

Lemma onFileMessages_complete (incoming : list (option Deepgram.message))
    (st : fileState) :
  isComplete (onFileMessages incoming st)
  = isComplete st || existsb Runs.completes incoming.
Proof.
  revert st; induction incoming as [|m rest IH]; intros st.
  - cbn. rewrite orb_false_r. reflexivity.
  - change (onFileMessages (m :: rest) st)
      with (onFileMessages rest (onFileMessage m st)).
    rewrite IH, onFileMessage_complete. cbn [existsb].
    apply eq_sym, orb_assoc.
Qed.

(** X16.  Whether the response of a file transcription is sent when the
    upstream socket closes or at the timeout, its [isFinal] is true
    exactly when some fragment that was not blank was final; at the
    timeout the transcript is the last fragment that was not blank, and
    "Transcription timeout" when there was none. *)
Theorem file_response_finality
    (incoming : list (option Deepgram.message)) :
  let st := onFileMessages incoming fileStart in
  response_isFinal (onFileClose st) = existsb Runs.completes incoming
  /\ response_isFinal (Api.onFileTimeout st)
     = existsb Runs.completes incoming
  /\ response_transcript (Api.onFileTimeout st)
     = fromOption (lastFragment notBlank incoming) Api.timeoutTranscript.
Proof.
  cbv zeta. unfold onFileClose, Api.onFileTimeout.
  cbn [response_isFinal response_transcript].
  rewrite onFileMessages_complete. cbn [fileStart isComplete orb].
  repeat split.
  rewrite (onFileMessages_transcript incoming fileStart None [])
    by reflexivity.
  change (fold_left (keepLatest notBlank) incoming None)
    with (lastFragment notBlank incoming).
  destruct (lastFragment notBlank incoming) as [text|] eqn:E;
    [|reflexivity].
  cbn [fromOption].
  assert (H : notBlank text = true).
  { apply (kept_fragment_satisfies notBlank incoming None); [|exact E].
    discriminate. }
  rewrite (truthy_trim _ H). reflexivity.
Qed.

Lemma close_transcript_not_empty (st : fileState) :
  truthy (response_transcript (onFileClose st)) = true.
Proof.
  unfold onFileClose. cbn [response_transcript].
  destruct (truthy (Server.transcript st)) eqn:E; [exact E | reflexivity].
Qed.

(** X17.  Whatever the upstream sent, the transcript of the response at
    close is not empty, so [transcribeFile] passes it to its callback as
    a final fragment even when the response says [isFinal: false], and
    the app takes it as the file transcript: also the placeholder
    "No transcript received". *)
Theorem file_transcript_reaches_app
    (incoming : list (option Deepgram.message)) (cb : Deepgram.callback)
    (st : Deepgram.service) (fileTranscript : jsstring) :
  let reply := onFileClose (onFileMessages incoming fileStart) in
  let answer :=
    Capture.transcribeFile (Some cb)
      (Capture.FileResponse (Some (response_transcript reply))) st in
  snd (fst answer)
  = Some (cb, mkTranscriptMessage (response_transcript reply) true)
  /\ snd answer = inl (response_transcript reply)
  /\ Mobile.handleTestMP3 (snd (fst answer), snd answer) fileTranscript
     = response_transcript reply
  /\ Deepgram.transcriptCallback (fst (fst answer)) = Some cb.
Proof.
  cbv zeta.
  set (reply := onFileClose (onFileMessages incoming fileStart)).
  pose proof (close_transcript_not_empty (onFileMessages incoming fileStart))
    as H.
  fold reply in H.
  generalize dependent (response_transcript reply).
  intros [|c text] H; [discriminate|]. repeat split.
Qed.

End FileMore.

Section LimitMore.

Lemma enforce_over_limit (text : jsstring) (maxSentences : Z) :
  (1 <= maxSentences)%Z ->
  (maxSentences < Z.of_nat (List.length (sentences text)))%Z ->
  Z.of_nat
    (List.length (sentences (enforceSentenceLimit text maxSentences)))
  = maxSentences.
Proof.
  intros Hmax Hmore. unfold enforceSentenceLimit.
  destruct text as [|c text]; [cbn in Hmore; lia|].
  cbn [truthy negb].
  destruct (Z.leb_spec (Z.of_nat (List.length (sentences (c :: text))))
              maxSentences) as [Hle|_]; [lia|].
  unfold slice0.
  destruct (Z.ltb_spec maxSentences 0) as [Hneg|_]; [lia|].
  set (n := Z.to_nat maxSentences).
  assert (Hn : n < List.length (sentences (c :: text))) by lia.
  destruct (leading_sentences (c :: text) n Hn) as (Hu & Hb & Hc).
  set (kept := firstn n (sentences (c :: text))) in *.
  assert (Hlen : List.length kept = n).
  { unfold kept. apply firstn_length_le. lia. }
  assert (Hkept : kept <> []).
  { intros E. rewrite E in Hlen. cbn in Hlen. lia. }
  rewrite (join_ends_open kept Hkept Hu Hb). cbn [negb].
  rewrite sentences_filter, (rejoined_count kept Hkept Hu Hb Hc). lia.
Qed.

Lemma sentence_limit_bound_helper (text : jsstring) (maxSentences : Z) :
  (1 <= maxSentences)%Z ->
  (Z.of_nat
     (List.length (sentences (enforceSentenceLimit text maxSentences)))
   <= maxSentences)%Z.
Proof.
  intros Hmax.
  destruct (Z.le_gt_cases (Z.of_nat (List.length (sentences text)))
              maxSentences) as [Hle | Hgt].
  - rewrite (within_limit_unchanged _ _ Hle). exact Hle.
  - rewrite (enforce_over_limit _ _ Hmax Hgt). lia.
Qed.

(** X18.  For a limit of at least one, the result of
    [enforceSentenceLimit] never has more sentences than the limit and,
    unless it is empty, has at least one. *)
Theorem sentence_limit_is_a_bound (text : jsstring) (maxSentences : Z) :
  (1 <= maxSentences)%Z ->
  (Z.of_nat
     (List.length (sentences (enforceSentenceLimit text maxSentences)))
   <= maxSentences)%Z
  /\ ((maxSentences < Z.of_nat (List.length (sentences text)))%Z ->
      sentences (enforceSentenceLimit text maxSentences) <> []).
Proof.
  intros Hmax. split; [apply sentence_limit_bound_helper, Hmax|].
  intros Hgt E.
  pose proof (enforce_over_limit _ _ Hmax Hgt) as H.
  rewrite E in H. cbn in H. lia.
Qed.

Lemma sentence_limit_is_a_bound_witness :
  (Z.of_nat
     (List.length
        (sentences (enforceSentenceLimit (lit "One. Two! Three? Four") 3)))
   <= 3)%Z
  /\ ((3 < Z.of_nat (List.length (sentences (lit "One. Two! Three? Four"))))%Z
      -> sentences (enforceSentenceLimit (lit "One. Two! Three? Four") 3)
         <> []).
Proof.
  apply (sentence_limit_is_a_bound (lit "One. Two! Three? Four") 3). lia.
Defined.

(** X19.  For a limit of at least one, [enforceSentenceLimit] is
    idempotent: applied to its own result it changes nothing. *)
Theorem sentence_limit_idempotent (text : jsstring) (maxSentences : Z) :
  (1 <= maxSentences)%Z ->
  enforceSentenceLimit (enforceSentenceLimit text maxSentences) maxSentences
  = enforceSentenceLimit text maxSentences.
Proof.
  intros Hmax. apply within_limit_unchanged.
  destruct (Z.le_gt_cases (Z.of_nat (List.length (sentences text)))
              maxSentences) as [Hle | Hgt].
  - rewrite (within_limit_unchanged _ _ Hle). exact Hle.
  - rewrite (enforce_over_limit _ _ Hmax Hgt). lia.
Qed.

Lemma sentence_limit_idempotent_witness :
  enforceSentenceLimit
    (enforceSentenceLimit (lit "One. Two! Three? Four") 2) 2
  = enforceSentenceLimit (lit "One. Two! Three? Four") 2.
Proof.
  apply (sentence_limit_idempotent (lit "One. Two! Three? Four") 2). lia.
Defined.

End LimitMore.

Section RouteMore.

Import Notions.

Import Api.

Lemma summarizeText_commands (t : jsstring) (n : Z) (o : execOutcome) :
  fst (summarizeText t n o) = if notBlank t then [command t n] else [].
Proof.
  unfold summarizeText, notBlank.
  destruct (truthy (trim t)) eqn:E.
  - rewrite (truthy_trim _ E). reflexivity.
  - rewrite orb_true_r. reflexivity.
Qed.

(** X20.  [POST /summarize] runs the model only for a text that is a
    string and not blank, and then once, with the command built from that
    text.  A string of white space alone is answered with an empty
    summary and no run; an empty string or a text that is not a string
    is refused with status 400 and no run. *)
Theorem summarize_runs_model_only_on_text
    (body : summarizeBody) (o : execOutcome) (now : jsstring) :
  match text body with
  | Str t =>
      if notBlank t
      then fst (postSummarize body o now) = [command t (limitOf body)]
      else
        postSummarize body o now
        = ([], if truthy t then SummaryReply [] now
               else ErrorReply 400 invalidText None)
  | _ => postSummarize body o now = ([], ErrorReply 400 invalidText None)
  end.
Proof.
  unfold postSummarize. fold (limitOf body).
  destruct (text body) as [|t|b]; try reflexivity.
  pose proof (summarizeText_commands t (limitOf body) o) as Hc.
  unfold notBlank in *.
  destruct (truthy (trim t)) eqn:E.
  - rewrite (truthy_trim _ E). cbn [negb].
    destruct (summarizeText t (limitOf body) o) as [cs [v|m]]; exact Hc.
  - destruct (truthy t) eqn:Et; [|reflexivity]. cbn [negb].
    unfold summarizeText. rewrite E, orb_true_r. reflexivity.
Qed.

Lemma summarizeText_bound (t : jsstring) (n : Z) (o : execOutcome)
    (summary : jsstring) :
  (1 <= n)%Z ->
  snd (summarizeText t n o) = Returned summary ->
  (Z.of_nat (List.length (sentences summary)) <= n)%Z.
Proof.
  intros Hn. unfold summarizeText.
  destruct (negb (truthy t) || negb (truthy (trim t))).
  - intros [= <-]. cbn. lia.
  - cbn [snd]. destruct o as [stdout stderr | killed message].
    + destruct (truthy stderr && negb (truthy stdout)); [discriminate|].
      intros [= <-]. apply sentence_limit_bound_helper, Hn.
    + destruct killed; discriminate.
Qed.

(** X21.  When the request asks for a limit of at least one sentence,
    or names none, a summary that [POST /summarize] answers with never
    has more sentences than that limit. *)
Theorem summary_reply_within_limit
    (body : summarizeBody) (o : execOutcome) (now : jsstring)
    (summary timestamp : jsstring) :
  (1 <= limitOf body)%Z ->
  snd (postSummarize body o now) = SummaryReply summary timestamp ->
  (Z.of_nat (List.length (sentences summary)) <= limitOf body)%Z.
Proof.
  intros Hn. unfold postSummarize. fold (limitOf body).
  destruct (text body) as [|t|b]; try discriminate.
  destruct (negb (truthy t)); [discriminate|].
  pose proof (summarizeText_bound t (limitOf body) o) as Hb.
  destruct (summarizeText t (limitOf body) o) as [cs [v|m]];
    [|discriminate].
  intros [= <- _]. apply Hb; [exact Hn | reflexivity].
Qed.

Lemma summary_reply_within_limit_witness :
  (Z.of_nat (List.length (sentences (lit "One. Two. Three."))) <= 3)%Z.
Proof.
  apply (summary_reply_within_limit
           (summaryRequest (lit "a long talk"))
           (ExecDone (lit " One. Two! Three? Four ") [])
           (lit "t0") (lit "One. Two. Three.") (lit "t0")).
  - vm_compute. discriminate.
  - reflexivity.
Defined.

(** X22.  From the hook to the model and back: when the run of the model
    fails in any way (a timeout, an error of the command, output on
    [stderr] only), the server answers 500, and the hook records the
    error "API Error: Failed to generate summary" and leaves the current
    summary and the history as they were; the message that tells the
    causes apart does not reach the hook. *)
Theorem model_failure_at_the_hook
    (text : jsstring) (o : execOutcome) (timestamp statusText now : jsstring)
    (st : state) :
  notBlank text = true ->
  modelFails o = true ->
  let reply := snd (postSummarize (summaryRequest text) o timestamp) in
  let st' :=
    generateSummary text (serviceOutcome (Answered reply statusText)) now st in
  (exists message, reply = ErrorReply 500 summaryFailed (Some message))
  /\ error st' = Some apiErrorAtHook
  /\ summaryHistory st' = summaryHistory st
  /\ currentSummary st' = currentSummary st.
Proof.
  intros Hb Hf. cbv zeta. unfold notBlank in Hb.
  unfold postSummarize, summaryRequest, summarizeText.
  cbn [Api.text maxSentences].
  rewrite Hb, (truthy_trim _ Hb). cbn [negb orb snd].
  unfold generateSummary. rewrite (generateSummary_call_issues _ _ Hb).
  destruct o as [stdout stderr | killed message]; cbn in Hf.
  - rewrite Hf. cbn. repeat split. eexists. reflexivity.
  - destruct killed; cbn; repeat split; eexists; reflexivity.
Qed.

Lemma model_failure_at_the_hook_witness :
  let reply :=
    snd (postSummarize (summaryRequest (lit "a long talk"))
           (ExecFailed true (lit "killed")) (lit "t0")) in
  let st' :=
    generateSummary (lit "a long talk")
      (serviceOutcome (Answered reply (lit "Internal Server Error")))
      (lit "1") initial in
  (exists message, reply = ErrorReply 500 summaryFailed (Some message))
  /\ error st' = Some apiErrorAtHook
  /\ summaryHistory st' = summaryHistory initial
  /\ currentSummary st' = currentSummary initial.
Proof.
  apply (model_failure_at_the_hook (lit "a long talk")
           (ExecFailed true (lit "killed")) (lit "t0")
           (lit "Internal Server Error") (lit "1") initial); reflexivity.
Defined.

(** X23.  From the hook to the model and back: when the run of the model
    succeeds, the hook shows the trimmed output cut to three sentences at
    most, puts it in front of the history with the time stamp of the
    server, and holds no error. *)
Theorem model_success_at_the_hook
    (text stdout stderr timestamp statusText now : jsstring) (st : state) :
  notBlank text = true ->
  modelFails (ExecDone stdout stderr) = false ->
  let reply :=
    snd (postSummarize (summaryRequest text) (ExecDone stdout stderr)
           timestamp) in
  let st' :=
    generateSummary text (serviceOutcome (Answered reply statusText)) now st in
  let shown := enforceSentenceLimit (trim stdout) 3 in
  currentSummary st' = Some shown
  /\ summaryHistory st'
     = {| id := now; summary := shown; timestamp := timestamp |}
       :: summaryHistory st
  /\ error st' = None
  /\ (Z.of_nat (List.length (sentences shown)) <= 3)%Z.
Proof.
  intros Hb Hf. cbv zeta. unfold notBlank in Hb.
  unfold postSummarize, summaryRequest, summarizeText.
  cbn [Api.text maxSentences].
  rewrite Hb, (truthy_trim _ Hb). cbn [negb orb snd].
  unfold generateSummary. rewrite (generateSummary_call_issues _ _ Hb).
  cbn in Hf. rewrite Hf. cbn. repeat split.
  apply sentence_limit_bound_helper. lia.
Qed.

Lemma model_success_at_the_hook_witness :
  let reply :=
    snd (postSummarize (summaryRequest (lit "a long talk"))
           (ExecDone (lit " One. Two! Three? Four ") []) (lit "t0")) in
  let st' :=
    generateSummary (lit "a long talk")
      (serviceOutcome (Answered reply (lit "OK"))) (lit "1") initial in
  let shown :=
    enforceSentenceLimit (trim (lit " One. Two! Three? Four ")) 3 in
  currentSummary st' = Some shown
  /\ summaryHistory st'
     = {| id := lit "1"; summary := shown; timestamp := lit "t0" |}
       :: summaryHistory initial
  /\ error st' = None
  /\ (Z.of_nat (List.length (sentences shown)) <= 3)%Z.
Proof.
  apply (model_success_at_the_hook (lit "a long talk")
           (lit " One. Two! Three? Four ") [] (lit "t0") (lit "OK")
           (lit "1") initial); reflexivity.
Defined.

End RouteMore.

(** ** The proxy and the checks before a file is streamed *)

Section ProxyMore.

(** X24.  The key of the proxy is [DEEPGRAM_API_KEY] when that variable
    is set and not empty, and otherwise [DEEPGRAM_API_Key]; with a key
    that is not empty from either of them the handler of a connection
    connects upstream, with the header "Token " followed by the key, and
    does not close the client. *)
Theorem key_precedence
    (env : gmap string jsstring) (params : list (jsstring * jsstring))
    (key : jsstring) :
  truthy key = true ->
  env !! "DEEPGRAM_API_KEY"%string = Some key
  \/ (truthy_opt (env !! "DEEPGRAM_API_KEY"%string) = false
      /\ env !! "DEEPGRAM_API_Key"%string = Some key) ->
  DEEPGRAM_API_KEY env = Some key
  /\ onConnection env params
     = [ConnectUpstream (deepgramUrl params) (lit "Token " ++ key)].
Proof.
  intros Hk H.
  assert (E : DEEPGRAM_API_KEY env = Some key).
  { unfold DEEPGRAM_API_KEY, or_else.
    destruct H as [-> | [-> ->]]; [cbn; rewrite Hk|]; reflexivity. }
  split; [exact E|].
  unfold onConnection. rewrite E. cbn [truthy_opt]. rewrite Hk.
  reflexivity.
Qed.

Lemma key_precedence_witness :
  DEEPGRAM_API_KEY
    (<[ "DEEPGRAM_API_KEY"%string := [] ]>
       {[ "DEEPGRAM_API_Key"%string := lit "k2" ]})
  = Some (lit "k2")
  /\ onConnection
       (<[ "DEEPGRAM_API_KEY"%string := [] ]>
          {[ "DEEPGRAM_API_Key"%string := lit "k2" ]}) []
     = [ConnectUpstream (deepgramUrl []) (lit "Token " ++ lit "k2")].
Proof.
  apply (key_precedence
           (<[ "DEEPGRAM_API_KEY"%string := [] ]>
              {[ "DEEPGRAM_API_Key"%string := lit "k2" ]}) [] (lit "k2")).
  - reflexivity.
  - right. split; reflexivity.
Defined.



(** A pair with another name at the head of the query, and one in the
    middle of it. *)
Lemma unknown_parameter_examples :
  deepgramUrl [(lit "callback", lit "http://example.org");
               (lit "model", lit "nova-3")]
  = deepgramUrl [(lit "model", lit "nova-3")]
  /\ deepgramUrl [(lit "model", lit "nova-3");
                  (lit "callback", lit "http://example.org");
                  (lit "language", lit "fr")]
     = deepgramUrl [(lit "model", lit "nova-3"); (lit "language", lit "fr")].
Proof. split; reflexivity. Qed.

(** X26.  [POST /transcribe-file] goes on to stream only a path that
    exists, and only with a key: the path of the request itself when it
    is absolute, otherwise the first of the four candidate paths that
    exists. *)
Theorem streamed_file_exists
    (isAbsolute existsSync : jsstring -> bool)
    (pathJoin : list jsstring -> jsstring) (dirname : jsstring)
    (filePath : Api.jsvalue) (key : option jsstring)
    (resolvedPath : jsstring) :
  Api.transcribeFileChecks isAbsolute existsSync pathJoin dirname filePath
    key
  = Api.Stream resolvedPath ->
  existsSync resolvedPath = true
  /\ truthy_opt key = true
  /\ exists p,
       filePath = Api.Str p
       /\ (if isAbsolute p then resolvedPath = p
           else List.find existsSync (Api.possiblePaths pathJoin dirname p)
                = Some resolvedPath).
Proof.
  unfold Api.transcribeFileChecks.
  destruct filePath as [|p|b]; try discriminate.
  destruct (truthy p); [|discriminate]. cbn [negb].
  destruct (isAbsolute p) eqn:Ha.
  - destruct (existsSync p) eqn:Ee; [|discriminate]. cbn [negb].
    destruct (truthy_opt key); [|discriminate].
    intros [= <-]. repeat split; try assumption.
    exists p. rewrite Ha. split; reflexivity.
  - destruct (List.find existsSync _) as [r|] eqn:Ef; [|discriminate].
    destruct (existsSync r) eqn:Ee; [|discriminate]. cbn [negb].
    destruct (truthy_opt key); [|discriminate].
    intros [= <-]. repeat split; try assumption.
    exists p. rewrite Ha. split; [reflexivity | exact Ef].
Qed.

Lemma streamed_file_exists_witness :
  let existsSync := fun p : jsstring => jsstring_eqb p (lit "a.mp3") in
  existsSync (lit "a.mp3") = true
  /\ truthy_opt (Some (lit "k")) = true
  /\ exists p,
       Api.Str (lit "a.mp3") = Api.Str p
       /\ (if (fun _ : jsstring => false) p then lit "a.mp3" = p
           else List.find existsSync
                  (Api.possiblePaths (fun _ => []) (lit "/srv/api") p)
                = Some (lit "a.mp3")).
Proof.
  apply (streamed_file_exists (fun _ => false)
           (fun p => jsstring_eqb p (lit "a.mp3")) (fun _ => [])
           (lit "/srv/api") (Api.Str (lit "a.mp3")) (Some (lit "k"))
           (lit "a.mp3")).
  reflexivity.
Defined.

End ProxyMore.
